(** * Attendance backend: matching, ledger and aggregation

    A shallow embedding of [backend_app.py]: the two module-level stores
    ([students], [attendance_log]), the helper [mark_attendance] and the
    decision logic of the routes [register_student], [take_attendance],
    [get_attendance_graph] and [send_report].

    What the routes obtain from outside the module is taken as input of the
    handlers: the uploaded form fields, the outcome of face extraction, the
    generated file name and the calendar day read from the clock.  Rendering
    (matplotlib, reportlab) and file storage are left out; the handlers return
    the data handed to the renderer. *)

From Stdlib Require Import QArith Qminmax Qabs.
From Stdlib Require Import Floats.PrimFloat Numbers.Cyclic.Int63.Uint63.
From Stdlib Require Import Strings.Ascii.
From stdpp Require Import gmap strings list sorting.

Local Open Scope Z_scope.
#[local] Set Warnings "-clear-no-such-hyp".

(** ** Python list and number operations used by the module *)

(** [l.index(x)]: position of the first element equal to [x]; [None] stands
    for the [ValueError] raised when there is none. *)
Fixpoint py_index {A} `{EqDecision A} (x : A) (l : list A) : option nat :=
  match l with
  | [] => None
  | y :: l' => if decide (y = x) then Some 0%nat else S <$> py_index x l'
  end.

(** [l.remove(x)]: drops the first element equal to [x].  The module only
    calls it under an [x in l] test. *)
Fixpoint py_remove {A} `{EqDecision A} (x : A) (l : list A) : list A :=
  match l with
  | [] => []
  | y :: l' => if decide (y = x) then l' else y :: py_remove x l'
  end.

(** [l[i]] for an integer [i]: negative indices count from the end and
    [None] stands for [IndexError]. *)
Definition py_getitem {A} (l : list A) (i : Z) : option A :=
  if bool_decide (0 ≤ i) then l !! Z.to_nat i
  else if bool_decide (- Z.of_nat (length l) ≤ i)
       then l !! Z.to_nat (Z.of_nat (length l) + i)
       else None.

(** [s[:n]] on a string. *)
Definition py_prefix (n : nat) (s : string) : string := String.substring 0 n s.

(** Conversion of a Python [int] to a binary64 float; exact below 2^53,
    which no list length or counter of the module exceeds. *)
Definition float_of_nat (n : nat) : float :=
  PrimFloat.of_uint63 (Uint63.of_Z (Z.of_nat n)).

(** [a / b] on two [int]s: true division, [None] for [ZeroDivisionError]. *)
Definition py_truediv (a b : nat) : option float :=
  if bool_decide (b = 0%nat) then None
  else Some (PrimFloat.div (float_of_nat a) (float_of_nat b)).

(** [sum(1 for x in l if f x)]. *)
Definition py_sum_ones {A} (f : A → bool) (l : list A) : nat :=
  foldl (λ acc x, if f x then (acc + 1)%nat else acc) 0%nat l.

(** Order of [sorted] on ASCII strings: lexicographic on character codes. *)
Definition string_le (a b : string) : Prop := String.leb a b = true.
Definition string_lt (a b : string) : Prop := String.ltb a b = true.

#[global] Instance string_le_dec : RelDecision string_le.
Proof. intros a b. unfold string_le. apply _. Defined.

Definition py_sorted (l : list string) : list string := merge_sort string_le l.

(** ** The face_recognition library

    [face_recognition.api] defines
    [face_distance(encs, x) = np.linalg.norm(encs - x, axis=1)] and
    [compare_faces(known, x, tolerance=0.6) =
       list(face_distance(known, x) <= tolerance)].
    The norm is the library's affair: it is a parameter, with the value of a
    finite float64 taken as the rational it denotes.  The comparison with the
    tolerance is exact on such values. *)
Class FaceLib := {
  Encoding : Type;
  norm_diff : Encoding → Encoding → Q
}.

Section Library.
Context `{FaceLib}.

Definition face_distance (face_encodings : list Encoding)
    (face_to_compare : Encoding) : list Q :=
  (λ e, norm_diff e face_to_compare) <$> face_encodings.

Definition compare_faces (known_face_encodings : list Encoding)
    (face_encoding_to_check : Encoding) (tolerance : Q) : list bool :=
  (λ d, Qle_bool d tolerance)
    <$> face_distance known_face_encodings face_encoding_to_check.
End Library.

(** The float64 literal [0.6] denotes 5404319552844595 / 2^53. *)
Definition tolerance : Q := (5404319552844595 # 9007199254740992)%Q.

(** ** Data storage *)

Inductive Status := Present | Absent.

#[global] Instance Status_eq_dec : EqDecision Status.
Proof. solve_decision. Defined.

(** One entry of [attendance_log[student_id]]: [{"status", "date"}]. *)
Record log_entry := LogEntry { status : Status; date : string }.

#[global] Instance log_entry_eq_dec : EqDecision log_entry.
Proof. solve_decision. Defined.

Section Storage.
Context `{FaceLib}.

(** One element of [students]: [{"id", "name", "photo", "encoding"}]. *)
Record student := Student {
  id : Z;
  name : string;
  photo : string;
  encoding : Encoding
}.

(** The two module-level stores.  [attendance_log] is a
    [defaultdict(list)]: reading a missing key yields the empty list. *)
Record state := State {
  students : list student;
  attendance_log : gmap Z (list log_entry)
}.

Definition init : state := State [] ∅.
End Storage.

Definition events (log : gmap Z (list log_entry)) (student_id : Z)
    : list log_entry :=
  default [] (log !! student_id).

(** ** mark_attendance *)

Definition marked_present (today : string) (l : log_entry) : bool :=
  bool_decide (date l = today) && bool_decide (status l = Present).

Definition mark_attendance (today : string) (student_id : Z) (st : Status)
    (log : gmap Z (list log_entry)) : gmap Z (list log_entry) :=
  if bool_decide (st = Present)
     && existsb (marked_present today) (events log student_id)
  then log
  else <[student_id := events log student_id ++ [LogEntry st today]]> log.

(** ** Routes *)

(** Error responses of the routes (the JSON [error] bodies). *)
Inductive error :=
  | NameAndPhotoRequired   (* 400, /register *)
  | NoFaceDetected         (* 400, /register *)
  | EmptyRoster            (* 400 "No students registered" *)
  | NoFrameUploaded        (* 400, /take_attendance *)
  | FailedToReadImage      (* 400, /take_attendance *)
  | StudentNotFound        (* 404, /get_attendance_graph *)
  | InvalidStudent         (* 400, /send_report *)
  | ReportFailed.          (* 500, exception inside /send_report *)

Inductive response (A : Type) :=
  | Ok (a : A)
  | Err (e : error).
Arguments Ok {A} a.
Arguments Err {A} e.

Section Routes.
Context `{FaceLib}.

(** *** /register *)

(** The uploaded photo as the route sees it: the name it is saved under
    ([secure_filename] of a fresh uuid and the extension) and what
    [get_face_encoding] returns for the saved file. *)
Record photo_upload := PhotoUpload {
  saved_as : string;
  get_face_encoding : option Encoding
}.

(** Form fields; [None] for a field that is absent. *)
Record register_form := RegisterForm {
  student_name : option string;
  student_photo : option photo_upload
}.

Definition register_student (st : state) (form : register_form)
    : response Z * state :=
  match student_name form, student_photo form with
  | Some nm, Some ph =>
      if bool_decide (nm = "") then (Err NameAndPhotoRequired, st)
      else
        match get_face_encoding ph with
        | None => (Err NoFaceDetected, st)
        | Some enc =>
            let student_id := Z.of_nat (length (students st)) + 1 in
            (Ok student_id,
             State (students st ++ [Student student_id nm (saved_as ph) enc])
                   (<[student_id := []]> (attendance_log st)))
        end
  | _, _ => (Err NameAndPhotoRequired, st)
  end.

(** *** /take_attendance *)

(** The [frame] field: absent, not decodable by [cv2.imdecode], or decoded,
    in which case the library yields one encoding per face found. *)
Inductive frame_upload :=
  | NoFile
  | Undecodable
  | Frame (face_encodings : list Encoding).

(** Loop state of the route: the two name lists and the ledger. *)
Record run := Run {
  present_students : list string;
  absent_students : list string;
  run_log : gmap Z (list log_entry)
}.

(** Lines 101-108: the student a face is attributed to, if any. *)
Definition first_match (roster : list student) (face_encoding : Encoding)
    : option student :=
  let matches :=
    compare_faces (encoding <$> roster) face_encoding tolerance in
  match py_index true matches with
  | Some idx => roster !! idx
  | None => None
  end.

(** Body of the loop over [face_encodings]. *)
Definition match_face (today : string) (roster : list student) (r : run)
    (face_encoding : Encoding) : run :=
  match first_match roster face_encoding with
  | Some s =>
      if bool_decide (name s ∈ present_students r) then r
      else
        Run (present_students r ++ [name s])
            (if bool_decide (name s ∈ absent_students r)
             then py_remove (name s) (absent_students r)
             else absent_students r)
            (mark_attendance today (id s) Present (run_log r))
  | None => r
  end.

(** Body of the loop marking the remaining students absent. *)
Definition mark_remaining (today : string) (present : list string)
    (log : gmap Z (list log_entry)) (s : student)
    : gmap Z (list log_entry) :=
  if bool_decide (name s ∈ present) then log
  else mark_attendance today (id s) Absent log.

Definition attendance_run (today : string) (roster : list student)
    (log : gmap Z (list log_entry)) (face_encodings : list Encoding) : run :=
  foldl (match_face today roster) (Run [] (name <$> roster) log)
        face_encodings.

(** [today] is the day [datetime.now()] gives during the request. *)
Definition take_attendance (today : string) (st : state)
    (frame : frame_upload) : response (list string * list string) * state :=
  match students st with
  | [] => (Err EmptyRoster, st)
  | _ :: _ =>
      match frame with
      | NoFile => (Err NoFrameUploaded, st)
      | Undecodable => (Err FailedToReadImage, st)
      | Frame face_encodings =>
          let r := attendance_run today (students st) (attendance_log st)
                                  face_encodings in
          let log' := foldl (mark_remaining today (present_students r))
                            (run_log r) (students st) in
          (Ok (present_students r, absent_students r),
           State (students st) log')
      end
  end.

(** *** Reachable stores

    Only these two routes write the stores; the graph and report routes test
    [student_id in attendance_log] before reading, so they add no key. *)

Inductive request :=
  | Register (form : register_form)
  | TakeAttendance (today : string) (frame : frame_upload).

Definition handle (st : state) (rq : request) : state :=
  match rq with
  | Register form => (register_student st form).2
  | TakeAttendance today frame => (take_attendance today st frame).2
  end.

Inductive reachable : state → Prop :=
  | reachable_init : reachable init
  | reachable_step st rq : reachable st → reachable (handle st rq).
End Routes.

(** *** /get_attendance_graph *)

(** [date_status[key][status] += 1] on the default
    [{"Present": 0, "Absent": 0}], kept as a pair (present, absent). *)
Definition bump (s : Status) (c : nat * nat) : nat * nat :=
  match s with
  | Present => (c.1 + 1, c.2)%nat
  | Absent => (c.1, c.2 + 1)%nat
  end.

Definition date_status (key : log_entry → string) (history : list log_entry)
    : gmap string (nat * nat) :=
  foldl (λ ds l, <[key l := bump (status l) (default (0, 0)%nat (ds !! key l))]> ds)
        ∅ history.

Definition month (l : log_entry) : string := py_prefix 7 (date l).

(** What is handed to [plt.bar]: labels, present counts, absent counts. *)
Definition series (key : log_entry → string) (history : list log_entry)
    : list string * list nat * list nat :=
  let ds := date_status key history in
  let labels := py_sorted (map_to_list ds).*1 in
  (labels,
   (λ m, (default (0, 0)%nat (ds !! m)).1) <$> labels,
   (λ m, (default (0, 0)%nat (ds !! m)).2) <$> labels).

Definition get_attendance_graph (log : gmap Z (list log_entry))
    (student_id : option Z) (view : string)
    : response (list string * list nat * list nat) :=
  match student_id ≫= (λ k, log !! k) with
  | None => Err StudentNotFound
  | Some history =>
      if bool_decide (view = "monthly") then Ok (series month history)
      else Ok (series date history)
  end.

(** *** /send_report *)

(** Lines 202-204. *)
Definition summary (logs : list log_entry) : option (nat * nat * float) :=
  let total_present :=
    py_sum_ones (λ l, bool_decide (status l = Present)) logs in
  let total_absent :=
    py_sum_ones (λ l, bool_decide (status l = Absent)) logs in
  q ← py_truediv total_present (Nat.max (length logs) 1);
  Some (total_present, total_absent, PrimFloat.mul q 100%float).

Section Report.
Context `{FaceLib}.

Record report := Report {
  report_student : student;
  report_totals : nat * nat * float;
  report_lines : list log_entry
}.

(** [student_id] is the JSON field, [None] when missing or null. *)
Definition send_report (st : state) (student_id : option Z)
    : response report :=
  match student_id with
  | None => Err InvalidStudent
  | Some k =>
      if bool_decide (k = 0) then Err InvalidStudent
      else
        match attendance_log st !! k with
        | None => Err InvalidStudent
        | Some logs =>
            match py_getitem (students st) (k - 1) with
            | None => Err ReportFailed
            | Some s =>
                match summary logs with
                | None => Err ReportFailed
                | Some totals => Ok (Report s totals logs)
                end
            end
        end
  end.
End Report.

(** ** Counting and specification-side definitions *)

(** Number of Present events dated [d] in a history. *)
Definition count_present (d : string) (h : list log_entry) : nat :=
  length (filter (λ l, date l = d ∧ status l = Present) h).

(** Number of events with status [s] in a history. *)
Definition count_status (s : Status) (h : list log_entry) : nat :=
  length (filter (λ l, status l = s) h).

(** Number of events with status [s] whose key is [m]. *)
Definition count_in_bucket (key : log_entry → string) (m : string)
    (s : Status) (h : list log_entry) : nat :=
  length (filter (λ l, key l = m ∧ status l = s) h).

(** Ledger invariant: at most one Present event per identity and day. *)
Definition present_once (log : gmap Z (list log_entry)) : Prop :=
  ∀ k d, (count_present d (events log k) ≤ 1)%nat.

Section StoreInvariant.
Context `{FaceLib}.

(** Ids are the positions plus one, the ledger has exactly the keys
    1..n, and no day carries two Present events. *)
Record store_inv (st : state) : Prop := StoreInv {
  ids_sequential :
    ∀ (i : nat) s, students st !! i = Some s → id s = Z.of_nat i + 1;
  log_keys :
    ∀ k, is_Some (attendance_log st !! k) ↔
         1 ≤ k ≤ Z.of_nat (length (students st));
  log_present_once : present_once (attendance_log st)
}.
End StoreInvariant.

Section RunInvariant.
Context `{FaceLib}.

(** What the loop over the faces maintains. *)
Record run_inv (roster : list student) (r : run) : Prop := RunInv {
  run_present_nodup : NoDup (present_students r);
  run_cover : ∀ n, n ∈ name <$> roster ↔
                   n ∈ present_students r ∨ n ∈ absent_students r;
  run_disjoint : NoDup (name <$> roster) →
    NoDup (absent_students r) ∧
    ∀ n, ¬ (n ∈ present_students r ∧ n ∈ absent_students r)
}.
End RunInvariant.

(** Least element of a list of distances, [None] on the empty list. *)
Definition min_distance (ds : list Q) : option Q :=
  match ds with
  | [] => None
  | d :: ds' => Some (foldl Qmin d ds')
  end.

(** ** A concrete library instance

    Signatures with a single coordinate: the Euclidean norm of a difference
    is its absolute value. *)
Definition line_faces : FaceLib :=
  {| Encoding := Q; norm_diff := λ a b, Qabs (a - b) |}.

Definition line_student (k : Z) (nm : string) (e : Q) : @student line_faces :=
  @Student line_faces k nm (nm +:+ ".jpg") e.

(** Example requests over [line_faces]. *)
Definition alice_form : @register_form line_faces :=
  @RegisterForm line_faces (Some "Alice")
    (Some (@PhotoUpload line_faces "a.jpg" (Some 0%Q))).

Definition bob_form : @register_form line_faces :=
  @RegisterForm line_faces (Some "Bob")
    (Some (@PhotoUpload line_faces "b.jpg" (Some 3%Q))).

Definition bob_twin_form : @register_form line_faces :=
  @RegisterForm line_faces (Some "Bob")
    (Some (@PhotoUpload line_faces "c.jpg" (Some 9%Q))).

Definition blurred_form : @register_form line_faces :=
  @RegisterForm line_faces (Some "Carol")
    (Some (@PhotoUpload line_faces "d.jpg" None)).

Definition line_frame (xs : list Q) : @frame_upload line_faces :=
  @Frame line_faces xs.

Definition line_init : @state line_faces := @init line_faces.

Definition line_handle : @state line_faces → @request line_faces → @state line_faces :=
  @handle line_faces.

(** ** The remaining parts of the routes *)

(** *** /students: the listing leaves the encoding out. *)
Section Listing.
Context `{FaceLib}.

Definition get_students (st : state) : list (Z * string * string) :=
  (λ s, (id s, name s, photo s)) <$> students st.
End Listing.

(** *** /send_report: file name and page layout *)

(** [s.replace(a, b)] for two single characters. *)
Fixpoint py_replace_char (a b : Ascii.ascii) (s : string) : string :=
  match s with
  | EmptyString => EmptyString
  | String c s' =>
      String (if bool_decide (c = a) then b else c) (py_replace_char a b s')
  end.

(** Line 191. *)
Definition pdf_filename (nm : string) : string :=
  "Attendance_Report_" +:+ py_replace_char " "%char "_"%char nm +:+ ".pdf".

Definition status_text (s : Status) : string :=
  match s with
  | Present => "Present"
  | Absent => "Absent"
  end.

(** Line 216: the text of one line of the detailed list. *)
Definition line_text (l : log_entry) : string :=
  date l +:+ " - " +:+ status_text (status l).

(** Lines 214-221: every entry is drawn at the current height of the current
    page, the height then drops by 20 and, once below 50, a new page is
    started at 800.  A drawn line is (page, height, text). *)
Definition draw_line (acc : list (nat * Z * string) * (nat * Z))
    (l : log_entry) : list (nat * Z * string) * (nat * Z) :=
  let '(drawn, (pg, y)) := acc in
  let y' := y - 20 in
  (drawn ++ [(pg, y, line_text l)],
   if bool_decide (y' < 50) then (S pg, 800) else (pg, y')).

Definition detailed_attendance (logs : list log_entry)
    : list (nat * Z * string) :=
  (foldl draw_line ([], (0%nat, 640)) logs).1.

(** Page and height of the line with index [i], in closed form: thirty
    lines on the first page, thirty-eight on each later one. *)
Definition line_position (i : nat) : nat * Z :=
  if bool_decide (i < 30)%nat then (0%nat, 640 - 20 * Z.of_nat i)
  else (S ((i - 30) / 38), 800 - 20 * Z.of_nat ((i - 30) mod 38)).

(** Sum of a list of counts. *)
Definition total (counts : list nat) : nat := foldr Nat.add 0%nat counts.

(** *** /take_attendance with the clock read by every mark

    [mark_attendance] reads [datetime.now()] itself, on every call, so the
    marks of one request need not carry the same day.  [clock i] is the day
    read by the call number [i] of the request, counted from 0; the loop
    states carry the number of calls made so far.  [take_attendance today]
    above is the case of a request that stays within one day. *)
Section ClockedRoute.
Context `{FaceLib}.

Definition match_face_at (clock : nat → string) (roster : list student)
    (acc : run * nat) (face_encoding : Encoding) : run * nat :=
  match first_match roster face_encoding with
  | Some s =>
      if bool_decide (name s ∈ present_students acc.1) then acc
      else
        (Run (present_students acc.1 ++ [name s])
             (if bool_decide (name s ∈ absent_students acc.1)
              then py_remove (name s) (absent_students acc.1)
              else absent_students acc.1)
             (mark_attendance (clock acc.2) (id s) Present (run_log acc.1)),
         S acc.2)
  | None => acc
  end.

Definition mark_remaining_at (clock : nat → string) (present : list string)
    (acc : gmap Z (list log_entry) * nat) (s : student)
    : gmap Z (list log_entry) * nat :=
  if bool_decide (name s ∈ present) then acc
  else (mark_attendance (clock acc.2) (id s) Absent acc.1, S acc.2).

Definition take_attendance_at (clock : nat → string) (st : state)
    (frame : frame_upload) : response (list string * list string) * state :=
  match students st with
  | [] => (Err EmptyRoster, st)
  | _ :: _ =>
      match frame with
      | NoFile => (Err NoFrameUploaded, st)
      | Undecodable => (Err FailedToReadImage, st)
      | Frame face_encodings =>
          let acc :=
            foldl (match_face_at clock (students st))
                  (Run [] (name <$> students st) (attendance_log st), 0%nat)
                  face_encodings in
          let marked :=
            foldl (mark_remaining_at clock (present_students acc.1))
                  (run_log acc.1, acc.2) (students st) in
          (Ok (present_students acc.1, absent_students acc.1),
           State (students st) marked.1)
      end
  end.

End ClockedRoute.


(** Example stores over [line_faces]. *)
Definition class_of_two : @state line_faces :=
  line_handle (line_handle line_init (Register alice_form)) (Register bob_form).


Definition monday : string := "2024-01-01".

Definition class_after_monday : @state line_faces :=
  line_handle class_of_two (TakeAttendance monday (line_frame [(1 # 10)%Q])).

Definition winter_history : list log_entry :=
  [LogEntry Present "2024-01-01"; LogEntry Absent "2024-01-02";
   LogEntry Present "2024-02-01"].

(** * Properties *)

(** ** The ledger *)

Lemma events_insert_eq log k h : events (<[k := h]> log) k = h.
Proof. unfold events. by rewrite lookup_insert_eq. Qed.

Lemma events_insert_ne log k k' h :
  k ≠ k' → events (<[k := h]> log) k' = events log k'.
Proof. intros Hne. unfold events. by rewrite lookup_insert_ne. Qed.

Lemma count_present_app d h1 h2 :
  count_present d (h1 ++ h2) = (count_present d h1 + count_present d h2)%nat.
Proof. unfold count_present. by rewrite filter_app, length_app. Qed.

Lemma count_status_app s h1 h2 :
  count_status s (h1 ++ h2) = (count_status s h1 + count_status s h2)%nat.
Proof. unfold count_status. by rewrite filter_app, length_app. Qed.

Lemma count_present_one d d' s :
  count_present d [LogEntry s d'] =
  if bool_decide (d' = d ∧ s = Present) then 1%nat else 0%nat.
Proof.
  unfold count_present. rewrite filter_cons, filter_nil. simpl.
  case_bool_decide as Hb; destruct (decide _) as [Hd|Hd]; naive_solver.
Qed.

(** The scan of line 38 finds an entry exactly when one is counted. *)
Lemma existsb_marked_present d h :
  existsb (marked_present d) h = bool_decide (0 < count_present d h)%nat.
Proof.
  unfold count_present. induction h as [|l h IH]; [done|].
  simpl. rewrite filter_cons. unfold marked_present at 1.
  destruct (decide (date l = d ∧ status l = Present)) as [[Hd Hs]|Hn].
  - rewrite !bool_decide_eq_true_2 by (done || simpl; lia). done.
  - rewrite <- IH.
    destruct (bool_decide (date l = d)) eqn:E1;
      destruct (bool_decide (status l = Present)) eqn:E2; simpl; try done.
    apply bool_decide_eq_true_1 in E1. apply bool_decide_eq_true_1 in E2.
    naive_solver.
Qed.

Lemma mark_attendance_other today k k' s log :
  k ≠ k' → events (mark_attendance today k s log) k' = events log k'.
Proof.
  intros Hne. unfold mark_attendance.
  destruct (_ && _); [done|]. by apply events_insert_ne.
Qed.

Lemma mark_present_events today k log :
  events (mark_attendance today k Present log) k =
  if bool_decide (0 < count_present today (events log k))%nat
  then events log k
  else events log k ++ [LogEntry Present today].
Proof.
  unfold mark_attendance. rewrite existsb_marked_present.
  rewrite bool_decide_eq_true_2 by done. simpl.
  case_bool_decide; [done|]. apply events_insert_eq.
Qed.

Lemma mark_absent_eq today k log :
  mark_attendance today k Absent log =
  <[k := events log k ++ [LogEntry Absent today]]> log.
Proof. done. Qed.

Lemma mark_attendance_present_once today k s log :
  present_once log → present_once (mark_attendance today k s log).
Proof.
  intros Hinv k' d. destruct (decide (k = k')) as [<-|Hne].
  2: { rewrite mark_attendance_other by done. apply Hinv. }
  destruct s.
  - rewrite mark_present_events. case_bool_decide as Hc; [apply Hinv|].
    rewrite count_present_app, count_present_one.
    case_bool_decide as Hd.
    + destruct Hd as [-> _]. lia.
    + specialize (Hinv k d). lia.
  - rewrite mark_absent_eq, events_insert_eq.
    rewrite count_present_app, count_present_one.
    rewrite bool_decide_eq_false_2 by naive_solver.
    specialize (Hinv k d). lia.
Qed.

Lemma mark_attendance_lookup today k s log k' :
  is_Some (mark_attendance today k s log !! k') ↔
  k' = k ∨ is_Some (log !! k').
Proof.
  unfold mark_attendance. destruct (_ && _) eqn:E.
  - split; [by right|]. intros [->|?]; [|done].
    apply andb_true_iff in E as [_ E]. unfold events in E.
    destruct (log !! k); [done|]. simpl in E. done.
  - rewrite lookup_insert_is_Some. destruct (decide (k = k')); naive_solver.
Qed.

(** ** Invariants of the stores *)

Section Invariants.
Context `{FaceLib}.

Lemma first_match_elem roster e s :
  first_match roster e = Some s → s ∈ roster.
Proof.
  unfold first_match. destruct (py_index _ _) as [idx|]; [|done].
  intros Hs. by eapply list_elem_of_lookup_2.
Qed.

(** Whatever every Present mark of a roster member preserves holds of the
    ledger after the loop over the faces. *)
Lemma attendance_run_log_ind (P : gmap Z (list log_entry) → Prop)
    today roster log encs :
  (∀ s l, s ∈ roster → P l → P (mark_attendance today (id s) Present l)) →
  P log → P (run_log (attendance_run today roster log encs)).
Proof.
  intros Hstep Hlog. unfold attendance_run.
  generalize (name <$> roster) as ab. generalize (@nil string) as pr.
  revert log Hlog. induction encs as [|e encs IH]; intros log Hlog pr ab.
  - done.
  - simpl. unfold match_face at 2. simpl.
    destruct (first_match roster e) as [s|] eqn:Hm; [|by apply IH].
    case_bool_decide; [by apply IH|].
    apply IH. apply Hstep; [|done]. by eapply first_match_elem.
Qed.

Lemma mark_remaining_ind (P : gmap Z (list log_entry) → Prop)
    today present roster log :
  (∀ s l, s ∈ roster → P l → P (mark_attendance today (id s) Absent l)) →
  P log → P (foldl (mark_remaining today present) log roster).
Proof.
  intros Hstep. revert log.
  assert (Hsub : roster ⊆ roster) by done. revert Hsub.
  generalize roster at 1 3 as l.
  induction l as [|s l IH]; intros Hsub log Hlog; [done|].
  simpl. apply IH; [set_solver|].
  unfold mark_remaining. case_bool_decide; [done|].
  apply Hstep; [set_solver|done].
Qed.

Lemma store_inv_init : store_inv init.
Proof.
  split; unfold init; simpl.
  - intros i s. by rewrite lookup_nil.
  - intros k. rewrite lookup_empty. split; [by intros [? ?]|lia].
  - intros k d. unfold events. rewrite lookup_empty.
    unfold count_present. simpl. lia.
Qed.

Lemma store_inv_register st form :
  store_inv st → store_inv (register_student st form).2.
Proof.
  intros [Hids Hkeys Honce]. unfold register_student.
  destruct (student_name form) as [nm|]; [|done].
  destruct (student_photo form) as [ph|]; [|done].
  case_bool_decide; [done|].
  destruct (get_face_encoding ph) as [enc|]; [|done].
  split; simpl.
  - intros i s Hs. apply lookup_app_Some in Hs as [Hs|[Hlen Hs]].
    + by apply Hids.
    + apply list_lookup_singleton_Some in Hs as [Hi <-]. simpl. lia.
  - intros k. rewrite lookup_insert_is_Some, Hkeys, length_app. simpl.
    destruct (decide (Z.of_nat (length (students st)) + 1 = k)); lia.
  - intros k d.
    destruct (decide (Z.of_nat (length (students st)) + 1 = k)) as [<-|Hne].
    + rewrite events_insert_eq. unfold count_present. simpl. lia.
    + rewrite events_insert_ne by done. apply Honce.
Qed.

Lemma roster_id_range st s :
  store_inv st → s ∈ students st →
  1 ≤ id s ≤ Z.of_nat (length (students st)).
Proof.
  intros Hinv [i Hi]%list_elem_of_lookup_1.
  rewrite (ids_sequential _ Hinv i s Hi).
  apply lookup_lt_Some in Hi. lia.
Qed.

Lemma take_attendance_empty today st frame :
  students st = [] → take_attendance today st frame = (Err EmptyRoster, st).
Proof. intros Hst. unfold take_attendance. by rewrite Hst. Qed.

Lemma take_attendance_frame today st encs :
  students st ≠ [] →
  take_attendance today st (Frame encs) =
  let r := attendance_run today (students st) (attendance_log st) encs in
  (Ok (present_students r, absent_students r),
   State (students st)
         (foldl (mark_remaining today (present_students r)) (run_log r)
                (students st))).
Proof.
  intros Hst. unfold take_attendance.
  destruct (students st) as [|s0 ss] eqn:E; [done|]. reflexivity.
Qed.

Lemma take_attendance_no_frame today st frame :
  (∀ encs, frame ≠ Frame encs) → (take_attendance today st frame).2 = st.
Proof.
  intros Hf. unfold take_attendance.
  destruct (students st); [done|]. destruct frame; naive_solver.
Qed.

Lemma store_inv_take_attendance today st frame :
  store_inv st → store_inv (take_attendance today st frame).2.
Proof.
  intros Hinv.
  destruct (decide (students st = [])) as [Hst|Hst].
  { by rewrite take_attendance_empty. }
  destruct frame as [| |encs];
    [by rewrite take_attendance_no_frame..|].
  rewrite take_attendance_frame by done. simpl.
  set (Q := λ log : gmap Z (list log_entry),
         (∀ k, is_Some (log !! k) ↔ 1 ≤ k ≤ Z.of_nat (length (students st)))
         ∧ present_once log).
  assert (Hmark : ∀ s status l, s ∈ students st → Q l →
            Q (mark_attendance today (id s) status l)).
  { intros s status l Hs [Hk Ho]. split.
    - intros k. rewrite mark_attendance_lookup, Hk.
      pose proof (roster_id_range st s Hinv Hs). split; [|by right].
      intros [->|?]; done.
    - by apply mark_attendance_present_once. }
  assert (HQ : Q (foldl (mark_remaining today
                 (present_students (attendance_run today (students st)
                    (attendance_log st) encs)))
               (run_log (attendance_run today (students st)
                    (attendance_log st) encs)) (students st))).
  { apply mark_remaining_ind; [by intros; apply Hmark|].
    apply attendance_run_log_ind; [by intros; apply Hmark|].
    destruct Hinv. by split. }
  destruct HQ as [Hk Ho]. split; simpl; [by destruct Hinv|done|done].
Qed.

Lemma reachable_store_inv st : reachable st → store_inv st.
Proof.
  induction 1 as [|st rq _ IH]; [apply store_inv_init|].
  destruct rq; simpl;
    [by apply store_inv_register|by apply store_inv_take_attendance].
Qed.
End Invariants.

(** ** Marking twice, marking absent *)





Lemma iter_absent_events today k n log :
  events (Nat.iter n (mark_attendance today k Absent) log) k =
  events log k ++ replicate n (LogEntry Absent today).
Proof.
  induction n as [|n IH]; simpl.
  - by rewrite app_nil_r.
  - rewrite mark_absent_eq, events_insert_eq, IH, <- app_assoc.
    f_equal. clear IH. induction n as [|n IHn]; [done|].
    simpl. by rewrite IHn.
Qed.

Lemma count_status_replicate s l n :
  count_status s (replicate n l) =
  if bool_decide (status l = s) then n else 0%nat.
Proof.
  unfold count_status. induction n as [|n IH]; simpl.
  - by case_bool_decide.
  - rewrite filter_cons. case_bool_decide; destruct (decide _); try done.
    + simpl. by rewrite IH.
Qed.

Lemma count_present_replicate_absent d today n :
  count_present d (replicate n (LogEntry Absent today)) = 0%nat.
Proof.
  unfold count_present. induction n as [|n IH]; [done|]. simpl.
  rewrite filter_cons. destruct (decide _) as [[_ ?]|]; done.
Qed.

(** C5: every Absent call appends a new Absent event, whatever the history
    holds: after [n] Absent calls for identity [k] on one day the history is
    the old one followed by [n] Absent events, so the Absent count grows by
    [n]; the Present counts of every day are untouched, and a Present call
    afterwards is still appended only when the day has no Present event. *)
Theorem mark_absent_accumulates (today : string) (k : Z) (n : nat)
    (log : gmap Z (list log_entry)) :
  let log' := Nat.iter n (mark_attendance today k Absent) log in
  mark_attendance today k Absent log =
    <[k := events log k ++ [LogEntry Absent today]]> log
  ∧ events log' k = events log k ++ replicate n (LogEntry Absent today)
  ∧ count_status Absent (events log' k) =
      (count_status Absent (events log k) + n)%nat
  ∧ (∀ d, count_present d (events log' k) = count_present d (events log k))
  ∧ mark_attendance today k Present log' =
      if bool_decide (0 < count_present today (events log k))%nat then log'
      else <[k := events log' k ++ [LogEntry Present today]]> log'.
Proof.
  simpl. assert (Hp : ∀ d,
    count_present d (events (Nat.iter n (mark_attendance today k Absent) log) k)
    = count_present d (events log k)).
  { intros d. rewrite iter_absent_events, count_present_app.
    rewrite count_present_replicate_absent. lia. }
  split_and!; [done|apply iter_absent_events| |done|].
  - rewrite iter_absent_events, count_status_app, count_status_replicate.
    by rewrite bool_decide_eq_true_2.
  - unfold mark_attendance at 1. rewrite existsb_marked_present, Hp.
    by rewrite bool_decide_eq_true_2.
Qed.

(** ** The matcher *)

Lemma py_index_true_Some {A} (f : A → bool) (l : list A) (i : nat) :
  py_index true (f <$> l) = Some i ↔
  (∃ a, l !! i = Some a ∧ f a = true) ∧
  (∀ j b, (j < i)%nat → l !! j = Some b → f b = false).
Proof.
  revert i. induction l as [|a l IH]; intros i; simpl.
  - split; [done|]. intros [(b & Hb & _) _]. by rewrite lookup_nil in Hb.
  - destruct (decide (f a = true)) as [Hfa|Hfa].
    + split.
      * intros [= <-]. split; [by exists a|]. intros j b Hj. lia.
      * intros [_ Hbefore]. destruct i as [|i]; [done|].
        specialize (Hbefore 0%nat a). simpl in Hbefore.
        rewrite Hbefore in Hfa by (done || lia). done.
    + apply not_true_is_false in Hfa. rewrite fmap_Some. split.
      * intros (i' & Hi & ->). apply IH in Hi as [Hat Hbefore]. split; [done|].
        intros [|j] b Hj Hb; simpl in Hb; [by simplify_eq|].
        eapply Hbefore; [|done]. lia.
      * intros [(b & Hb & Hfb) Hbefore]. destruct i as [|i].
        { simpl in Hb. simplify_eq. congruence. }
        exists i. split; [|done]. apply IH. split; [by exists b|].
        intros j c Hj Hc. apply (Hbefore (S j) c); [lia|done].
Qed.

Lemma py_index_true_is_Some {A} (f : A → bool) (l : list A) :
  is_Some (py_index true (f <$> l)) ↔ ∃ a, a ∈ l ∧ f a = true.
Proof.
  induction l as [|a l IH]; simpl.
  - split; [by intros [? ?]|]. intros (a & Ha & _). by apply elem_of_nil in Ha.
  - destruct (decide (f a = true)) as [Hfa|Hfa].
    + split; [|by eauto]. intros _. exists a. split; [left|done].
    + rewrite fmap_is_Some, IH. split.
      * intros (b & Hb & Hfb). exists b. split; [by right|done].
      * intros (b & Hb & Hfb). apply elem_of_cons in Hb as [->|Hb]; [done|].
        by exists b.
Qed.

Lemma min_distance_le (ds : list Q) (t : Q) :
  (∃ d, min_distance ds = Some d ∧ (d <= t)%Q) ↔
  ∃ d, d ∈ ds ∧ (d <= t)%Q.
Proof.
  destruct ds as [|d0 ds]; simpl.
  - split; [by intros (? & ? & _)|].
    intros (d & Hd & _). by apply elem_of_nil in Hd.
  - assert (Hfold : ∀ d0, (foldl Qmin d0 ds <= t)%Q ↔
                          (d0 <= t)%Q ∨ ∃ d, d ∈ ds ∧ (d <= t)%Q).
    { clear d0. induction ds as [|d1 ds IH]; intros d0; simpl.
      - split; [by left|]. intros [?|(d & Hd & _)]; [done|].
        by apply elem_of_nil in Hd.
      - rewrite IH, Q.min_le_iff. split.
        + intros [[?|?]|(d & Hd & Hle)]; [by left| |].
          * right. exists d1. split; [left|done].
          * right. exists d. split; [by right|done].
        + intros [?|(d & Hd & Hle)]; [by left; left|].
          apply elem_of_cons in Hd as [->|Hd]; [by left; right|].
          right. by exists d. }
    split.
    + intros (d & [= <-] & Hle). apply Hfold in Hle as [?|(d & Hd & Hle)].
      * exists d0. split; [left|done].
      * exists d. split; [by right|done].
    + intros (d & Hd & Hle). eexists. split; [done|]. apply Hfold.
      apply elem_of_cons in Hd as [->|Hd]; [by left|]. right. by exists d.
Qed.

Section Matcher.
Context `{FaceLib}.

Lemma compare_faces_roster (roster : list student) (x : Encoding) (t : Q) :
  compare_faces (encoding <$> roster) x t =
  (λ s, Qle_bool (norm_diff (encoding s) x) t) <$> roster.
Proof.
  unfold compare_faces, face_distance.
  by rewrite <- !list_fmap_compose.
Qed.

(** [students[idx]] never raises: [matches] is as long as the roster. *)
Lemma first_match_index_in_range (roster : list student) (x : Encoding)
    (idx : nat) :
  py_index true (compare_faces (encoding <$> roster) x tolerance) = Some idx →
  is_Some (roster !! idx).
Proof.
  rewrite compare_faces_roster. intros Hi.
  apply py_index_true_Some in Hi as [(s & Hs & _) _]. by exists s.
Qed.

(** C2, as the code has it: a face is attributed to an identity exactly when
    some roster signature lies at distance at most the tolerance from it,
    that is when the least distance to the roster is at most the tolerance;
    a distance equal to the tolerance matches, any greater one does not. *)
Theorem attributed_iff_within_tolerance (roster : list student) (x : Encoding) :
  (is_Some (first_match roster x) ↔
   ∃ d, min_distance (face_distance (encoding <$> roster) x) = Some d
        ∧ (d <= tolerance)%Q)
  ∧ (is_Some (first_match roster x) ↔
     ∃ s, s ∈ roster ∧ (norm_diff (encoding s) x <= tolerance)%Q).
Proof.
  assert (Hsome : is_Some (first_match roster x) ↔
     ∃ s, s ∈ roster ∧ (norm_diff (encoding s) x <= tolerance)%Q).
  { unfold first_match. rewrite compare_faces_roster. split.
    - intros [s Hs].
      destruct (py_index _ _) as [i|] eqn:Hi; [|done].
      apply py_index_true_Some in Hi as [(a & Ha & Hle) _].
      exists a. split; [by eapply list_elem_of_lookup_2|].
      by apply Qle_bool_iff.
    - intros (s & Hs & Hle).
      assert (Hidx : is_Some (py_index true
                ((λ s, Qle_bool (norm_diff (encoding s) x) tolerance) <$> roster))).
      { apply py_index_true_is_Some. exists s. split; [done|].
        by apply Qle_bool_iff. }
      destruct Hidx as [i Hi]. rewrite Hi.
      apply py_index_true_Some in Hi as [(a & Ha & _) _]. by exists a. }
  split; [|done]. rewrite Hsome, min_distance_le.
  unfold face_distance. split.
  - intros (s & Hs & Hle). exists (norm_diff (encoding s) x). split; [|done].
    apply list_elem_of_fmap. exists (encoding s). split; [done|].
    apply list_elem_of_fmap. by exists s.
  - intros (d & Hd & Hle). apply list_elem_of_fmap in Hd as (e & -> & He).
    apply list_elem_of_fmap in He as (s & -> & Hs). by exists s.
Qed.

(** C3, as the code has it: the face is attributed to the first roster entry,
    in roster order, whose distance is within the tolerance; every entry
    before it is out of tolerance, and no entry after it is looked at, be it
    closer or not. *)
Theorem first_match_first_within_tolerance (roster : list student)
    (x : Encoding) (s : student) :
  first_match roster x = Some s ↔
  ∃ i : nat, roster !! i = Some s
    ∧ (norm_diff (encoding s) x <= tolerance)%Q
    ∧ ∀ (j : nat) s', (j < i)%nat → roster !! j = Some s' →
        (tolerance < norm_diff (encoding s') x)%Q.
Proof.
  unfold first_match. rewrite compare_faces_roster. split.
  - destruct (py_index _ _) as [i|] eqn:Hi; [|done]. intros Hs.
    apply py_index_true_Some in Hi as [(a & Ha & Hle) Hbefore].
    assert (a = s) as -> by congruence.
    exists i. split_and!; [done|by apply Qle_bool_iff|].
    intros j s' Hj Hs'. apply Qnot_le_lt. rewrite <- Qle_bool_iff.
    by rewrite (Hbefore j s' Hj Hs').
  - intros (i & Hs & Hle & Hbefore).
    assert (Hi : py_index true
              ((λ s, Qle_bool (norm_diff (encoding s) x) tolerance) <$> roster)
            = Some i).
    { apply py_index_true_Some. split.
      - exists s. split; [done|]. by apply Qle_bool_iff.
      - intros j b Hj Hb. apply not_true_is_false. rewrite Qle_bool_iff.
        apply Qlt_not_le. by eapply Hbefore. }
    by rewrite Hi.
Qed.
End Matcher.

(** Counterexample to C2 as stated: a single roster signature at distance
    exactly the tolerance from the face.  The least distance is not below the
    tolerance, yet the face is attributed. *)
Lemma boundary_distance_matches :
  let roster := [line_student 1 "A" 0%Q] in
  min_distance (@face_distance line_faces (encoding <$> roster) tolerance)
    = Some tolerance
  ∧ ¬ (tolerance < tolerance)%Q
  ∧ @first_match line_faces roster tolerance = Some (line_student 1 "A" 0%Q).
Proof.
  split_and!; [reflexivity| |reflexivity]. apply Qlt_irrefl.
Qed.

(** Counterexample to C3 as stated: both roster entries are within the
    tolerance of the face, the second one is the closer, the first one is
    selected. *)
Lemma first_match_not_closest :
  let a := line_student 1 "A" 0%Q in
  let b := line_student 2 "B" (2 # 5)%Q in
  let x := (1 # 2)%Q in
  @first_match line_faces [a; b] x = Some a
  ∧ (@norm_diff line_faces (encoding b) x <= tolerance)%Q
  ∧ (@norm_diff line_faces (encoding b) x < @norm_diff line_faces (encoding a) x)%Q.
Proof.
  split_and!; [reflexivity|by vm_compute|by vm_compute].
Qed.

(** ** The present and absent lists of a run *)

Lemma py_remove_subseteq {A} `{EqDecision A} (x : A) (l : list A) :
  py_remove x l ⊆ l.
Proof.
  induction l as [|y l IH]; simpl; [done|].
  case_decide; set_solver.
Qed.

Lemma elem_of_py_remove_ne {A} `{EqDecision A} (x y : A) (l : list A) :
  y ≠ x → y ∈ py_remove x l ↔ y ∈ l.
Proof.
  intros Hne. induction l as [|z l IH]; simpl; [done|].
  case_decide; set_solver.
Qed.

Lemma NoDup_py_remove {A} `{EqDecision A} (x : A) (l : list A) :
  NoDup l → NoDup (py_remove x l) ∧ x ∉ py_remove x l.
Proof.
  induction 1 as [|y l Hy Hl IH]; simpl.
  - split; [constructor|]. by apply not_elem_of_nil.
  - case_decide as Hxy.
    + subst. done.
    + destruct IH as [IH1 IH2]. split.
      * constructor; [|done]. intros Hin. apply Hy.
        by apply (py_remove_subseteq x).
      * intros [?|?]%elem_of_cons; [congruence|done].
Qed.

Section Run.
Context `{FaceLib}.

Lemma run_inv_start roster log : run_inv roster (Run [] (name <$> roster) log).
Proof.
  split; simpl.
  - constructor.
  - set_solver.
  - intros Hnd. split; [done|]. set_solver.
Qed.

Lemma run_inv_match_face today roster r e :
  run_inv roster r → run_inv roster (match_face today roster r e).
Proof.
  intros [Hnd Hcover Hdisj]. unfold match_face.
  destruct (first_match roster e) as [s|] eqn:Hm; [|done].
  apply first_match_elem in Hm.
  case_bool_decide as Hp; [done|].
  assert (Hname : name s ∈ name <$> roster) by by apply list_elem_of_fmap_2.
  split; simpl.
  - apply NoDup_app. split_and!; [done| |apply NoDup_singleton].
    intros n Hn ->%list_elem_of_singleton. done.
  - intros n. rewrite Hcover, elem_of_app, list_elem_of_singleton.
    destruct (decide (n = name s)) as [->|Hne]; [naive_solver|].
    case_bool_decide; [|naive_solver].
    rewrite elem_of_py_remove_ne by done. naive_solver.
  - intros Hroster. destruct (Hdisj Hroster) as [Hab Hno].
    case_bool_decide as Ha.
    + destruct (NoDup_py_remove (name s) _ Hab) as [Hnd' Hgone].
      split; [done|]. intros n [Hn1 Hn2].
      apply elem_of_app in Hn1 as [Hn1| ->%list_elem_of_singleton]; [|done].
      apply (Hno n). split; [done|]. by apply (py_remove_subseteq (name s)).
    + split; [done|]. intros n [Hn1 Hn2].
      apply elem_of_app in Hn1 as [Hn1| ->%list_elem_of_singleton]; [|done].
      by apply (Hno n).
Qed.

Lemma run_inv_attendance_run today roster log encs :
  run_inv roster (attendance_run today roster log encs).
Proof.
  unfold attendance_run.
  generalize (run_inv_start roster log).
  generalize (Run [] (name <$> roster) log) as r.
  induction encs as [|e encs IH]; intros r Hr; [done|].
  simpl. apply IH. by apply run_inv_match_face.
Qed.

(** X22: the two returned lists are lists of names.  For every roster and
    any faces, every roster name is in [present] or in [absent] and nothing
    else is, and [present] holds no name twice however many faces match it;
    when the names of the roster are pairwise distinct, no name is in both
    lists. *)
Theorem take_attendance_partition (today : string) (st : state)
    (encs : list Encoding) (present absent : list string) (st' : state) :
  take_attendance today st (Frame encs) = (Ok (present, absent), st') →
  (∀ n, n ∈ name <$> students st ↔ n ∈ present ∨ n ∈ absent)
  ∧ NoDup present
  ∧ (NoDup (name <$> students st) → ∀ n, ¬ (n ∈ present ∧ n ∈ absent)).
Proof.
  intros Hrun.
  destruct (decide (students st = [])) as [Hst|Hst].
  { by rewrite take_attendance_empty in Hrun. }
  rewrite take_attendance_frame in Hrun by done. simpl in Hrun.
  injection Hrun as <- <- _.
  destruct (run_inv_attendance_run today (students st) (attendance_log st) encs)
    as [Hnd Hcover Hdisj].
  split_and!; [done|done|]. intros Hnames. by apply Hdisj.
Qed.

(** C6: the route answers EmptyRoster exactly when no student is registered,
    whatever the frame; on a roster that is not empty a frame without faces
    is answered with an empty present list and every roster name absent. *)
Theorem take_attendance_empty_roster (today : string) (st : state)
    (frame : frame_upload) (s : student) (ss : list student)
    (log : gmap Z (list log_entry)) :
  ((take_attendance today st frame).1 = Err EmptyRoster ↔ students st = [])
  ∧ (take_attendance today (State (s :: ss) log) (Frame [])).1
      = Ok ([], name <$> s :: ss).
Proof.
  split; [|done]. split.
  - unfold take_attendance. destruct (students st); [done|].
    by destruct frame.
  - intros Hst. by rewrite take_attendance_empty.
Qed.
End Run.

Lemma take_attendance_partition_witness :
  let st := line_handle (line_handle line_init (Register alice_form))
                        (Register bob_form) in
  let frame := [(1 # 10)%Q; (1 # 5)%Q; 7%Q] in
  let st' := (@take_attendance line_faces "2024-01-01" st (line_frame frame)).2 in
  @take_attendance line_faces "2024-01-01" st (line_frame frame)
    = (Ok (["Alice"], ["Bob"]), st')
  ∧ ((∀ n, n ∈ name <$> students st ↔ n ∈ ["Alice"] ∨ n ∈ ["Bob"])
     ∧ NoDup ["Alice"]
     ∧ (NoDup (name <$> students st) →
        ∀ n, ¬ (n ∈ ["Alice"] ∧ n ∈ ["Bob"]))).
Proof.
  intros st frame st'.
  assert (Hrun : @take_attendance line_faces "2024-01-01" st (line_frame frame)
                 = (Ok (["Alice"], ["Bob"]), st')) by reflexivity.
  split; [exact Hrun|].
  exact (take_attendance_partition (H := line_faces)
           "2024-01-01" st frame ["Alice"] ["Bob"] st' Hrun).
Defined.

(** C4, the failing input: two registered students share the name Bob and
    the frame shows the first one only.  The route returns the name as
    present and as absent, so the two lists are not disjoint; the first
    student gets a Present event and the second, who was not seen, gets no
    event at all, although the loop is to mark the remaining students
    absent. *)
Lemma shared_name_in_both_lists :
  let st := line_handle (line_handle line_init (Register bob_form))
                        (Register bob_twin_form) in
  let out := @take_attendance line_faces "2024-01-01" st (line_frame [3%Q]) in
  out.1 = Ok (["Bob"], ["Bob"])
  ∧ ¬ (∀ n : string, ¬ (n ∈ ["Bob"] ∧ n ∈ ["Bob"]))
  ∧ (name <$> students st = ["Bob"; "Bob"] ∧ id <$> students st = [1; 2])
  ∧ events (attendance_log out.2) 1 = [LogEntry Present "2024-01-01"]
  ∧ events (attendance_log out.2) 2 = [].
Proof.
  split_and!; try reflexivity. intros Hn. apply (Hn "Bob"). split; left.
Qed.

(** ** The order of [sorted] on strings *)

Lemma ascii_compare_Lt (x y : Ascii.ascii) :
  Ascii.compare x y = Lt ↔ (Ascii.N_of_ascii x < Ascii.N_of_ascii y)%N.
Proof. unfold Ascii.compare. by rewrite N.compare_lt_iff. Qed.

Lemma ascii_compare_refl (x : Ascii.ascii) : Ascii.compare x x = Eq.
Proof. unfold Ascii.compare. apply N.compare_refl. Qed.

Lemma string_compare_refl (s : string) : String.compare s s = Eq.
Proof.
  induction s as [|x s IH]; simpl; [done|]. by rewrite ascii_compare_refl.
Qed.

Lemma string_compare_lt_trans (a b c : string) :
  String.compare a b = Lt → String.compare b c = Lt →
  String.compare a c = Lt.
Proof.
  revert b c. induction a as [|x a IH]; intros [|y b] [|z c]; simpl; try done.
  destruct (Ascii.compare x y) eqn:Exy; [|clear IH|done];
    destruct (Ascii.compare y z) eqn:Eyz; try done.
  - apply Ascii.compare_eq_iff in Exy as ->. rewrite Eyz. apply IH.
  - apply Ascii.compare_eq_iff in Exy as ->. by rewrite Eyz.
  - apply Ascii.compare_eq_iff in Eyz as <-. by rewrite Exy.
  - apply ascii_compare_Lt in Exy. apply ascii_compare_Lt in Eyz.
    assert (Hxz : Ascii.compare x z = Lt).
    { apply ascii_compare_Lt. by eapply N.lt_trans. }
    by rewrite Hxz.
Qed.

Lemma string_le_lt_or_eq (a b : string) :
  string_le a b ↔ string_lt a b ∨ a = b.
Proof.
  unfold string_le, string_lt, String.leb, String.ltb. split.
  - destruct (String.compare a b) eqn:E; try done; [|by left].
    right. by apply String.compare_eq_iff.
  - intros [Hlt| ->]; [by destruct (String.compare a b)|].
    by rewrite string_compare_refl.
Qed.

Lemma string_lt_trans (a b c : string) :
  string_lt a b → string_lt b c → string_lt a c.
Proof.
  unfold string_lt, String.ltb. intros Hab Hbc.
  destruct (String.compare a b) eqn:E1; try done.
  destruct (String.compare b c) eqn:E2; try done.
  by rewrite (string_compare_lt_trans a b c).
Qed.

#[global] Instance string_le_trans : Transitive string_le.
Proof.
  intros a b c. rewrite !string_le_lt_or_eq.
  intros [Hab| ->] [Hbc| ->]; eauto using string_lt_trans.
Qed.

#[global] Instance string_le_total : Total string_le.
Proof. intros a b. apply String.leb_total. Qed.

Lemma py_sorted_elem (l : list string) (x : string) : x ∈ py_sorted l ↔ x ∈ l.
Proof. unfold py_sorted. by rewrite merge_sort_Permutation. Qed.

Lemma StronglySorted_strict (l : list string) :
  StronglySorted string_le l → NoDup l → StronglySorted string_lt l.
Proof.
  induction 1 as [|x l Hl IH Hx]; intros Hnd; [constructor|].
  apply NoDup_cons in Hnd as [Hxl Hnd]. constructor; [by apply IH|].
  apply Forall_forall. intros y Hy.
  rewrite Forall_forall in Hx. specialize (Hx y Hy).
  apply string_le_lt_or_eq in Hx as [?| ->]; done.
Qed.

Lemma py_sorted_strict (l : list string) :
  NoDup l → StronglySorted string_lt (py_sorted l).
Proof.
  intros Hnd. apply StronglySorted_strict.
  - unfold py_sorted. apply StronglySorted_merge_sort; apply _.
  - unfold py_sorted. by rewrite merge_sort_Permutation.
Qed.

(** ** Aggregation *)

Lemma count_in_bucket_app key m s h1 h2 :
  count_in_bucket key m s (h1 ++ h2) =
  (count_in_bucket key m s h1 + count_in_bucket key m s h2)%nat.
Proof. unfold count_in_bucket. by rewrite filter_app, length_app. Qed.

Lemma count_in_bucket_one key m s l :
  count_in_bucket key m s [l] =
  if bool_decide (key l = m ∧ status l = s) then 1%nat else 0%nat.
Proof.
  unfold count_in_bucket. rewrite filter_cons, filter_nil.
  case_bool_decide; destruct (decide _); naive_solver.
Qed.

Lemma count_in_bucket_pos key m h :
  (count_in_bucket key m Present h + count_in_bucket key m Absent h ≠ 0)%nat ↔
  ∃ l, l ∈ h ∧ key l = m.
Proof.
  induction h as [|l h IH].
  - split; [done|]. intros (l & Hl & _). by apply elem_of_nil in Hl.
  - change (l :: h) with ([l] ++ h).
    rewrite !count_in_bucket_app, !count_in_bucket_one.
    destruct (decide (key l = m)) as [Hk|Hk].
    + split; [intros _; exists l; split; [left|done]|]. intros _.
      destruct (status l) eqn:Hs.
      * rewrite (bool_decide_eq_true_2 (key l = m ∧ Present = Present)) by done. lia.
      * rewrite (bool_decide_eq_true_2 (key l = m ∧ Absent = Absent)) by done. lia.
    + rewrite !bool_decide_eq_false_2 by naive_solver. simpl. rewrite IH.
      split; intros (l' & Hl' & Hm).
      * exists l'. split; [by right|done].
      * apply elem_of_cons in Hl' as [->|Hl']; [done|]. by exists l'.
Qed.

(** The dictionary built by the loop holds, for each key met, the two
    counts of the events with that key, and nothing for other keys. *)
Lemma date_status_lookup key h m :
  date_status key h !! m =
  if bool_decide (count_in_bucket key m Present h
                  + count_in_bucket key m Absent h = 0)%nat
  then None
  else Some (count_in_bucket key m Present h, count_in_bucket key m Absent h).
Proof.
  induction h as [|l h IH] using rev_ind; [done|].
  unfold date_status. rewrite foldl_snoc. fold (date_status key h).
  rewrite !count_in_bucket_app, !count_in_bucket_one.
  destruct (decide (key l = m)) as [Hk|Hk].
  - subst m. rewrite lookup_insert_eq, IH.
    assert (Hd : default (0, 0)%nat
              (if bool_decide (count_in_bucket key (key l) Present h
                  + count_in_bucket key (key l) Absent h = 0)%nat
               then None
               else Some (count_in_bucket key (key l) Present h,
                          count_in_bucket key (key l) Absent h))
            = (count_in_bucket key (key l) Present h,
               count_in_bucket key (key l) Absent h)).
    { case_bool_decide; [|done]. simpl. f_equal; lia. }
    rewrite Hd. destruct (status l) eqn:Hs; simpl.
    + rewrite (bool_decide_eq_true_2 (key l = key l ∧ Present = Present)) by done.
      rewrite (bool_decide_eq_false_2 (key l = key l ∧ Present = Absent)) by naive_solver.
      rewrite bool_decide_eq_false_2 by lia. f_equal. f_equal. lia.
    + rewrite (bool_decide_eq_false_2 (key l = key l ∧ Absent = Present)) by naive_solver.
      rewrite (bool_decide_eq_true_2 (key l = key l ∧ Absent = Absent)) by done.
      rewrite bool_decide_eq_false_2 by lia. f_equal. f_equal. lia.
  - rewrite lookup_insert_ne by done. rewrite IH.
    rewrite (bool_decide_eq_false_2 (key l = m ∧ status l = Present)) by naive_solver.
    rewrite (bool_decide_eq_false_2 (key l = m ∧ status l = Absent)) by naive_solver.
    by rewrite !Nat.add_0_r.
Qed.

Lemma date_status_default key h m :
  default (0, 0)%nat (date_status key h !! m) =
  (count_in_bucket key m Present h, count_in_bucket key m Absent h).
Proof.
  rewrite date_status_lookup. case_bool_decide; [|done]. simpl. f_equal; lia.
Qed.

Lemma date_status_is_Some key h m :
  is_Some (date_status key h !! m) ↔ ∃ l, l ∈ h ∧ key l = m.
Proof.
  rewrite <- count_in_bucket_pos, date_status_lookup.
  case_bool_decide; split; try done; by intros [? ?].
Qed.

(** Both views: one bucket per key met in the history, labels strictly
    ascending, and each bucket carrying the counts of its key. *)
Lemma series_spec key history :
  let labels := (series key history).1.1 in
  (∀ m, m ∈ labels ↔ ∃ l, l ∈ history ∧ key l = m)
  ∧ (series key history).1.2
      = (λ m, count_in_bucket key m Present history) <$> labels
  ∧ (series key history).2
      = (λ m, count_in_bucket key m Absent history) <$> labels
  ∧ StronglySorted string_lt labels.
Proof.
  unfold series. simpl. split_and!.
  - intros m. rewrite py_sorted_elem, <- date_status_is_Some.
    rewrite list_elem_of_fmap. split.
    + intros ([m' c] & -> & Hin). apply elem_of_map_to_list in Hin. by exists c.
    + intros [c Hc]. exists (m, c). split; [done|].
      by apply elem_of_map_to_list.
  - apply list_fmap_ext. intros i m _. by rewrite date_status_default.
  - apply list_fmap_ext. intros i m _. by rewrite date_status_default.
  - apply py_sorted_strict, NoDup_fst_map_to_list.
Qed.

(** C8: the monthly view of a history has one bucket for each distinct
    seven-character prefix of its dates, each bucket carries the number of
    Present and the number of Absent events with that prefix, and the labels
    come in strictly ascending lexicographic order. *)
Theorem monthly_series (log : gmap Z (list log_entry)) (k : Z)
    (history : list log_entry) :
  let labels := (series month history).1.1 in
  get_attendance_graph (<[k := history]> log) (Some k) "monthly"
    = Ok (series month history)
  ∧ (∀ m, m ∈ labels ↔ ∃ l, l ∈ history ∧ py_prefix 7 (date l) = m)
  ∧ (series month history).1.2
      = (λ m, count_in_bucket month m Present history) <$> labels
  ∧ (series month history).2
      = (λ m, count_in_bucket month m Absent history) <$> labels
  ∧ StronglySorted string_lt labels.
Proof.
  split; [|apply (series_spec month)].
  unfold get_attendance_graph. simpl. by rewrite lookup_insert_eq.
Qed.

Lemma py_sum_ones_count {A} (f : A → bool) (l : list A) :
  py_sum_ones f l = length (filter (λ x, f x = true) l).
Proof.
  unfold py_sum_ones.
  assert (Hacc : ∀ n, foldl (λ acc x, if f x then (acc + 1)%nat else acc) n l
                      = (n + length (filter (λ x, f x = true) l))%nat).
  { induction l as [|x l IH]; intros n; simpl; [lia|].
    rewrite IH, filter_cons. destruct (f x); simpl; lia. }
  by rewrite Hacc.
Qed.

Lemma py_sum_ones_status s h :
  py_sum_ones (λ l, bool_decide (status l = s)) h = count_status s h.
Proof.
  rewrite py_sum_ones_count. unfold count_status. f_equal.
  apply list_filter_iff. intros l. by rewrite bool_decide_eq_true.
Qed.

Lemma summary_eq (history : list log_entry) :
  summary history =
    Some (count_status Present history, count_status Absent history,
          PrimFloat.mul
            (PrimFloat.div (float_of_nat (count_status Present history))
                           (float_of_nat (Nat.max (length history) 1)))
            100%float).
Proof.
  unfold summary, py_truediv. rewrite !py_sum_ones_status.
  rewrite bool_decide_eq_false_2 by lia. done.
Qed.

(** C7: on every history [summary] succeeds and returns the number of
    Present events, the number of Absent events and the float
    [total_present / max(len, 1) * 100]; on the empty history the result is
    [(0, 0, 0.0)]. *)
Theorem summary_totals (history : list log_entry) :
  summary history =
    Some (count_status Present history, count_status Absent history,
          PrimFloat.mul
            (PrimFloat.div (float_of_nat (count_status Present history))
                           (float_of_nat (Nat.max (length history) 1)))
            100%float)
  ∧ summary [] = Some (0%nat, 0%nat, 0%float).
Proof. split; [apply summary_eq|reflexivity]. Qed.

(** The example of the specification: three Present and one Absent. *)
Example summary_three_of_four :
  summary [LogEntry Present "2024-01-01"; LogEntry Absent "2024-01-02";
           LogEntry Present "2024-01-03"; LogEntry Present "2024-01-04"]
  = Some (3%nat, 1%nat, 75%float).
Proof. reflexivity. Qed.

Example monthly_rollup :
  series month [LogEntry Present "2024-02-03"; LogEntry Present "2024-01-01";
                LogEntry Absent "2024-01-15"]
  = (["2024-01"; "2024-02"], [1%nat; 1%nat], [1%nat; 0%nat]).
Proof. reflexivity. Qed.

(** ** Registration and the report lookup *)

Section Registration.
Context `{FaceLib}.

Lemma register_student_error st form e :
  (register_student st form).1 = Err e → (register_student st form).2 = st.
Proof.
  unfold register_student.
  destruct (student_name form) as [nm|]; [|done].
  destruct (student_photo form) as [ph|]; [|done].
  case_bool_decide; [done|].
  by destruct (get_face_encoding ph).
Qed.

Lemma register_student_no_face st form :
  (register_student st form).1 = Err NoFaceDetected ↔
  ∃ nm ph, student_name form = Some nm ∧ nm ≠ ""
           ∧ student_photo form = Some ph ∧ get_face_encoding ph = None.
Proof.
  unfold register_student. split.
  - destruct (student_name form) as [nm|]; [|done].
    destruct (student_photo form) as [ph|]; [|done].
    case_bool_decide; [done|].
    destruct (get_face_encoding ph) eqn:He; [done|]. intros _.
    by exists nm, ph.
  - intros (nm & ph & -> & Hnm & -> & ->).
    by rewrite bool_decide_eq_false_2.
Qed.

(** C9: a registration answered with NoFaceDetected, which is the answer
    exactly when a name and a photo came and extraction found no face,
    leaves the roster and the ledger as they were. *)
Theorem register_no_face_keeps_stores (st : state) (form : register_form) :
  (register_student st form).1 = Err NoFaceDetected →
  (register_student st form).2 = st
  ∧ students (register_student st form).2 = students st
  ∧ attendance_log (register_student st form).2 = attendance_log st
  ∧ ∃ nm ph, student_name form = Some nm ∧ nm ≠ ""
             ∧ student_photo form = Some ph ∧ get_face_encoding ph = None.
Proof.
  intros Herr. rewrite (register_student_error st form _ Herr).
  split_and!; [done..|]. by apply (proj1 (register_student_no_face st form)).
Qed.

(** C10: in every store the service can reach, the student at position [i]
    of the roster has id [i + 1]; hence for every id the report route
    accepts, [students[student_id - 1]] is the student with that id and the
    report is built for that student. *)
Theorem sequential_ids_positional_lookup (st : state) :
  reachable st →
  (∀ (i : nat) s, students st !! i = Some s → id s = Z.of_nat i + 1)
  ∧ (∀ k logs, k ≠ 0 → attendance_log st !! k = Some logs →
       ∃ s totals, py_getitem (students st) (k - 1) = Some s ∧ id s = k
                   ∧ send_report st (Some k) = Ok (Report s totals logs)).
Proof.
  intros Hr. pose proof (reachable_store_inv st Hr) as [Hids Hkeys _].
  split; [done|]. intros k logs Hk Hlogs.
  assert (Hrange : 1 ≤ k ≤ Z.of_nat (length (students st))).
  { apply Hkeys. by exists logs. }
  assert (Hget : py_getitem (students st) (k - 1)
                 = students st !! Z.to_nat (k - 1)).
  { unfold py_getitem. by rewrite bool_decide_eq_true_2 by lia. }
  destruct (lookup_lt_is_Some_2 (students st) (Z.to_nat (k - 1))) as [s Hs];
    [lia|].
  exists s. eexists. split_and!.
  - by rewrite Hget.
  - rewrite (Hids _ _ Hs). lia.
  - unfold send_report. rewrite bool_decide_eq_false_2 by done.
    rewrite Hlogs, Hget, Hs, summary_eq. done.
Qed.
End Registration.

Lemma register_no_face_keeps_stores_witness :
  let st := line_handle line_init (Register alice_form) in
  (@register_student line_faces st blurred_form).1 = Err NoFaceDetected
  ∧ (@register_student line_faces st blurred_form).2 = st.
Proof.
  split; [reflexivity|].
  apply (register_no_face_keeps_stores (H := line_faces)). reflexivity.
Defined.

Lemma sequential_ids_positional_lookup_witness :
  let st := line_handle (line_handle line_init (Register alice_form))
                        (Register bob_form) in
  (∀ (i : nat) s, students st !! i = Some s → id s = Z.of_nat i + 1)
  ∧ (∀ k logs, k ≠ 0 → attendance_log st !! k = Some logs →
       ∃ s totals, py_getitem (students st) (k - 1) = Some s ∧ id s = k
                   ∧ @send_report line_faces st (Some k)
                     = Ok (@Report line_faces s totals logs)).
Proof.
  apply (sequential_ids_positional_lookup (H := line_faces)).
  apply reachable_step, reachable_step, reachable_init.
Defined.

(** * Further properties of the routes *)

(** ** mark_attendance *)

(** X1: a call touches the history of its identity only, and there it either
    changes nothing (a Present call on a day already marked Present) or
    appends the new event after the old ones. *)
Theorem mark_attendance_frame (today : string) (k : Z) (s : Status)
    (log : gmap Z (list log_entry)) :
  (∀ k', k' ≠ k → mark_attendance today k s log !! k' = log !! k')
  ∧ events (mark_attendance today k s log) k =
      if bool_decide (s = Present ∧ 0 < count_present today (events log k))%nat
      then events log k
      else events log k ++ [LogEntry s today].
Proof.
  split.
  - intros k' Hne. unfold mark_attendance.
    destruct (_ && _); [done|]. by rewrite lookup_insert_ne.
  - destruct s.
    + rewrite mark_present_events.
      case_bool_decide; case_bool_decide; naive_solver.
    + rewrite mark_absent_eq, events_insert_eq.
      by rewrite bool_decide_eq_false_2 by naive_solver.
Qed.

(** ** /register *)

Section RegisterRoute.
Context `{FaceLib}.

(** X2: a registration that succeeds returns the roster length plus one,
    appends one student carrying that id, the submitted name, the saved file
    name and the extracted encoding, starts that id's history empty and
    leaves every other history alone. *)
Theorem register_student_success (st st' : state) (form : register_form)
    (k : Z) :
  register_student st form = (Ok k, st') →
  k = Z.of_nat (length (students st)) + 1
  ∧ (∃ nm ph enc,
       student_name form = Some nm ∧ nm ≠ ""
       ∧ student_photo form = Some ph ∧ get_face_encoding ph = Some enc
       ∧ students st' = students st ++ [Student k nm (saved_as ph) enc])
  ∧ attendance_log st' !! k = Some []
  ∧ ∀ k', k' ≠ k → attendance_log st' !! k' = attendance_log st !! k'.
Proof.
  unfold register_student.
  destruct (student_name form) as [nm|]; [|done].
  destruct (student_photo form) as [ph|]; [|done].
  case_bool_decide as Hnm; [done|].
  destruct (get_face_encoding ph) as [enc|] eqn:Henc; [|done].
  intros [= <- <-]. simpl. split_and!.
  - done.
  - by exists nm, ph, enc.
  - by rewrite lookup_insert_eq.
  - intros k' Hne. by rewrite lookup_insert_ne.
Qed.

(** X3: the route answers NameAndPhotoRequired exactly when the name is
    missing or empty or the photo is missing, whatever else the request
    holds, and with that answer both stores are left as they were. *)
Theorem register_student_errors (st : state) (form : register_form) :
  ((register_student st form).1 = Err NameAndPhotoRequired ↔
   student_name form = None ∨ student_name form = Some ""
   ∨ student_photo form = None)
  ∧ (student_name form = None ∨ student_name form = Some ""
     ∨ student_photo form = None →
     (register_student st form).2 = st).
Proof.
  assert (Hiff : (register_student st form).1 = Err NameAndPhotoRequired ↔
    student_name form = None ∨ student_name form = Some ""
    ∨ student_photo form = None).
  { unfold register_student.
    destruct (student_name form) as [nm|]; [|naive_solver].
    destruct (student_photo form) as [ph|]; [|naive_solver].
    case_bool_decide as Hnm; [naive_solver|].
    destruct (get_face_encoding ph); naive_solver. }
  split; [done|]. intros Hmiss. apply Hiff in Hmiss.
  by eapply register_student_error.
Qed.

(** X4: right after a successful registration the new id can be read back:
    the new student is the last row of the listing, the graph route finds
    the id and has no bucket for it in either view, and for the report route
    the id is a key of the ledger, [students[k - 1]] is the new student and
    the totals of its history are (0, 0, 0.0). *)
Theorem register_then_read (st st' : state) (form : register_form) (k : Z)
    (view : string) :
  register_student st form = (Ok k, st') →
  ∃ s, last (students st') = Some s ∧ id s = k
       ∧ student_name form = Some (name s)
       ∧ last (get_students st') = Some (k, name s, photo s)
       ∧ get_attendance_graph (attendance_log st') (Some k) view
         = Ok ([], [], [])
       ∧ k ≠ 0 ∧ attendance_log st' !! k = Some []
       ∧ py_getitem (students st') (k - 1) = Some s
       ∧ summary (events (attendance_log st') k)
         = Some (0%nat, 0%nat, 0%float).
Proof.
  unfold register_student.
  destruct (student_name form) as [nm|]; [|done].
  destruct (student_photo form) as [ph|]; [|done].
  case_bool_decide as Hnm; [done|].
  destruct (get_face_encoding ph) as [enc|] eqn:Henc; [|done].
  intros [= <- <-]. simpl.
  set (k := Z.of_nat (length (students st)) + 1).
  exists (Student k nm (saved_as ph) enc). split_and!.
  - by rewrite last_snoc.
  - done.
  - done.
  - unfold get_students. cbn [students]. rewrite fmap_app.
    apply last_snoc.
  - unfold get_attendance_graph. simpl. rewrite lookup_insert_eq.
    by case_bool_decide.
  - unfold k. lia.
  - by rewrite lookup_insert_eq.
  - unfold py_getitem.
    rewrite bool_decide_eq_true_2 by (unfold k; lia).
    replace (Z.to_nat (k - 1)) with (length (students st)) by (unfold k; lia).
    by rewrite list_lookup_middle.
  - by rewrite events_insert_eq.
Qed.
End RegisterRoute.

Lemma register_student_success_witness :
  let r := @register_student line_faces line_init alice_form in
  r = (Ok 1, r.2) ∧ 1 = Z.of_nat (length (students line_init)) + 1.
Proof.
  intros r. split; [reflexivity|].
  exact (proj1 (register_student_success (H := line_faces) line_init r.2
                  alice_form 1 eq_refl)).
Defined.

Lemma register_then_read_witness :
  let r := @register_student line_faces line_init alice_form in
  r = (Ok 1, r.2)
  ∧ ∃ s, last (students r.2) = Some s ∧ id s = 1
       ∧ student_name alice_form = Some (name s)
       ∧ last (get_students r.2) = Some (1, name s, photo s)
       ∧ get_attendance_graph (attendance_log r.2) (Some 1) "daily"
         = Ok ([], [], [])
       ∧ 1 ≠ 0 ∧ attendance_log r.2 !! 1 = Some []
       ∧ py_getitem (students r.2) (1 - 1) = Some s
       ∧ summary (events (attendance_log r.2) 1)
         = Some (0%nat, 0%nat, 0%float).
Proof.
  intros r. split; [reflexivity|].
  exact (register_then_read (H := line_faces) line_init r.2 alice_form 1
           "daily" eq_refl).
Defined.

(** ** /take_attendance: answers *)

Lemma length_py_remove {A} `{EqDecision A} (x : A) (l : list A) :
  x ∈ l → S (length (py_remove x l)) = length l.
Proof.
  induction l as [|y l IH]; simpl; [by intros ?%elem_of_nil|].
  case_decide as Hxy; [done|]. intros [?|Hin]%elem_of_cons; [congruence|].
  simpl. by rewrite IH.
Qed.

Section RunAnswers.
Context `{FaceLib}.

Lemma present_after_faces today roster r encs n :
  n ∈ present_students (foldl (match_face today roster) r encs) ↔
  n ∈ present_students r
  ∨ ∃ e s, e ∈ encs ∧ first_match roster e = Some s ∧ name s = n.
Proof.
  revert r. induction encs as [|e encs IH]; intros r; simpl.
  - split; [by left|]. intros [?|(e & s & He & _)]; [done|].
    by apply elem_of_nil in He.
  - rewrite IH. unfold match_face at 1.
    destruct (first_match roster e) as [s|] eqn:Hm.
    + case_bool_decide as Hp; simpl.
      * split.
        -- intros [?|(e' & s' & He' & Hm' & Hn)]; [by left|].
           right. exists e', s'. split; [by right|done].
        -- intros [?|(e' & s' & He' & Hm' & Hn)]; [by left|].
           apply elem_of_cons in He' as [->|He'].
           ++ left. congruence.
           ++ right. by exists e', s'.
      * rewrite elem_of_app, list_elem_of_singleton. split.
        -- intros [[?| ->]|(e' & s' & He' & Hm' & Hn)]; [by left| |].
           ++ right. exists e, s. split; [left|done].
           ++ right. exists e', s'. split; [by right|done].
        -- intros [?|(e' & s' & He' & Hm' & Hn)]; [by left; left|].
           apply elem_of_cons in He' as [->|He'].
           ++ left. right. congruence.
           ++ right. by exists e', s'.
    + split.
      * intros [?|(e' & s' & He' & Hm' & Hn)]; [by left|].
        right. exists e', s'. split; [by right|done].
      * intros [?|(e' & s' & He' & Hm' & Hn)]; [by left|].
        apply elem_of_cons in He' as [->|He']; [congruence|].
        right. by exists e', s'.
Qed.

Lemma run_lengths today roster log encs :
  let r := attendance_run today roster log encs in
  (length (present_students r) + length (absent_students r))%nat
    = length roster
  ∧ (length (present_students r) ≤ length encs)%nat.
Proof.
  simpl. unfold attendance_run.
  assert (Hgen : ∀ r0, run_inv roster r0 →
    let r := foldl (match_face today roster) r0 encs in
    (length (present_students r) + length (absent_students r))%nat
      = (length (present_students r0) + length (absent_students r0))%nat
    ∧ (length (present_students r)
       ≤ length (present_students r0) + length encs)%nat).
  { induction encs as [|e encs IH]; intros r0 Hr0; simpl; [lia|].
    pose proof (run_inv_match_face today roster r0 e Hr0) as Hr1.
    destruct (IH _ Hr1) as [IH1 IH2]. simpl in IH1, IH2.
    rewrite IH1. clear IH1.
    assert (Hstep :
      (length (present_students (match_face today roster r0 e))
       + length (absent_students (match_face today roster r0 e)))%nat
      = (length (present_students r0) + length (absent_students r0))%nat
      ∧ (length (present_students (match_face today roster r0 e))
         ≤ S (length (present_students r0)))%nat).
    { unfold match_face.
      destruct (first_match roster e) as [s|] eqn:Hm; [|lia].
      case_bool_decide as Hp; [lia|]. simpl. rewrite length_app. simpl.
      apply first_match_elem in Hm.
      assert (Hin : name s ∈ absent_students r0).
      { destruct (proj1 (run_cover roster r0 Hr0 (name s))); [|done..].
        by apply list_elem_of_fmap_2. }
      rewrite bool_decide_eq_true_2 by done.
      pose proof (length_py_remove (name s) _ Hin). lia. }
    lia. }
  destruct (Hgen _ (run_inv_start roster log)) as [H1 H2]. simpl in H1, H2.
  rewrite length_fmap in H1. split; [done|lia].
Qed.

Lemma match_face_seen today roster r e :
  (∀ s, first_match roster e = Some s → name s ∈ present_students r) →
  match_face today roster r e = r.
Proof.
  intros Hseen. unfold match_face.
  destruct (first_match roster e) as [s|]; [|done].
  by rewrite bool_decide_eq_true_2 by by apply Hseen.
Qed.

Lemma attendance_run_repeated today roster log before e after :
  e ∈ before →
  attendance_run today roster log (before ++ e :: after)
  = attendance_run today roster log (before ++ after).
Proof.
  intros He. unfold attendance_run. rewrite !foldl_app. simpl.
  rewrite match_face_seen; [done|].
  intros s Hm. apply present_after_faces. right. by exists e, s.
Qed.

(** X5: the roster is tested before the frame.  The route answers
    NoFrameUploaded exactly when the roster is not empty and the frame field
    is missing, and FailedToReadImage exactly when the roster is not empty
    and the upload does not decode to an image; on an empty roster, a
    missing frame or an upload that does not decode, the stores are left as
    they were. *)
Theorem take_attendance_errors (today : string) (st : state)
    (frame : frame_upload) :
  ((take_attendance today st frame).1 = Err NoFrameUploaded ↔
   students st ≠ [] ∧ frame = NoFile)
  ∧ ((take_attendance today st frame).1 = Err FailedToReadImage ↔
     students st ≠ [] ∧ frame = Undecodable)
  ∧ (students st = [] ∨ frame = NoFile ∨ frame = Undecodable →
     (take_attendance today st frame).2 = st).
Proof.
  unfold take_attendance.
  destruct (students st) as [|s ss]; [naive_solver|].
  destruct frame; simpl; naive_solver.
Qed.

(** X6: a name is returned as present exactly when some face of the frame is
    attributed to a student of that name. *)
Theorem present_iff_attributed (today : string) (st st' : state)
    (encs : list Encoding) (present absent : list string) (n : string) :
  take_attendance today st (Frame encs) = (Ok (present, absent), st') →
  n ∈ present ↔
  ∃ e s, e ∈ encs ∧ first_match (students st) e = Some s ∧ name s = n.
Proof.
  intros Hrun.
  destruct (decide (students st = [])) as [Hst|Hst].
  { by rewrite take_attendance_empty in Hrun. }
  rewrite take_attendance_frame in Hrun by done. simpl in Hrun.
  injection Hrun as <- _ _. unfold attendance_run.
  rewrite present_after_faces. simpl. split; [|by right].
  intros [?%elem_of_nil|?]; done.
Qed.

(** X7: whatever the names, the two returned lists together have as many
    entries as the roster, and there are at most as many present names as
    faces in the frame. *)
Theorem take_attendance_lengths (today : string) (st st' : state)
    (encs : list Encoding) (present absent : list string) :
  take_attendance today st (Frame encs) = (Ok (present, absent), st') →
  (length present + length absent)%nat = length (students st)
  ∧ (length present ≤ length encs)%nat.
Proof.
  intros Hrun.
  destruct (decide (students st = [])) as [Hst|Hst].
  { by rewrite take_attendance_empty in Hrun. }
  rewrite take_attendance_frame in Hrun by done. simpl in Hrun.
  injection Hrun as <- <- _. apply run_lengths.
Qed.

(** X8: a face that repeats an earlier face of the same frame changes
    nothing, wherever in the frame it stands: the answer and the stores
    after the request are the same as for the frame without it. *)
Theorem take_attendance_repeated_faces (today : string) (st : state)
    (before after : list Encoding) (e : Encoding) :
  e ∈ before →
  take_attendance today st (Frame (before ++ e :: after))
  = take_attendance today st (Frame (before ++ after)).
Proof.
  intros He.
  destruct (decide (students st = [])) as [Hst|Hst].
  { by rewrite !take_attendance_empty. }
  rewrite !take_attendance_frame by done. simpl.
  by rewrite attendance_run_repeated.
Qed.
End RunAnswers.

Lemma present_iff_attributed_witness :
  let out := @take_attendance line_faces monday class_of_two
               (line_frame [(1 # 10)%Q]) in
  out = (Ok (["Alice"], ["Bob"]), out.2)
  ∧ ("Alice" ∈ ["Alice"] ↔
     ∃ e s, e ∈ [(1 # 10)%Q]
            ∧ @first_match line_faces (students class_of_two) e = Some s
            ∧ name s = "Alice").
Proof.
  intros out. split; [reflexivity|].
  exact (present_iff_attributed (H := line_faces) monday class_of_two out.2
           [(1 # 10)%Q] ["Alice"] ["Bob"] "Alice" eq_refl).
Defined.

Lemma take_attendance_lengths_witness :
  let out := @take_attendance line_faces monday class_of_two
               (line_frame [(1 # 10)%Q]) in
  out = (Ok (["Alice"], ["Bob"]), out.2)
  ∧ (length ["Alice"] + length ["Bob"])%nat = length (students class_of_two).
Proof.
  intros out. split; [reflexivity|].
  exact (proj1 (take_attendance_lengths (H := line_faces) monday class_of_two
                  out.2 [(1 # 10)%Q] ["Alice"] ["Bob"] eq_refl)).
Defined.

Lemma take_attendance_repeated_faces_witness :
  (1 # 10)%Q ∈ [(1 # 10)%Q]
  ∧ @take_attendance line_faces monday class_of_two
      (line_frame [(1 # 10)%Q; (1 # 10)%Q; 3%Q])
    = @take_attendance line_faces monday class_of_two
        (line_frame [(1 # 10)%Q; 3%Q]).
Proof.
  assert (Hin : (1 # 10)%Q ∈ [(1 # 10)%Q]) by left.
  split; [exact Hin|].
  exact (take_attendance_repeated_faces (H := line_faces) monday class_of_two
           [(1 # 10)%Q] [3%Q] (1 # 10)%Q Hin).
Defined.

(** ** /take_attendance: what is written to the ledger *)



Section RunLedgerFacts.
Context `{FaceLib}.



(** *** The route with the clock and the route within one day *)

Lemma take_attendance_at_empty clock st frame :
  students st = [] →
  take_attendance_at clock st frame = (Err EmptyRoster, st).
Proof. intros Hst. unfold take_attendance_at. by rewrite Hst. Qed.

Lemma take_attendance_at_frame clock st encs :
  students st ≠ [] →
  take_attendance_at clock st (Frame encs) =
  let acc :=
    foldl (match_face_at clock (students st))
          (Run [] (name <$> students st) (attendance_log st), 0%nat) encs in
  let marked :=
    foldl (mark_remaining_at clock (present_students acc.1))
          (run_log acc.1, acc.2) (students st) in
  (Ok (present_students acc.1, absent_students acc.1),
   State (students st) marked.1).
Proof.
  intros Hst. unfold take_attendance_at.
  destruct (students st) as [|s0 ss] eqn:E; [done|]. reflexivity.
Qed.


Lemma faces_at_const today roster acc encs :
  (foldl (match_face_at (λ _, today) roster) acc encs).1
  = foldl (match_face today roster) acc.1 encs.
Proof.
  revert acc. induction encs as [|e encs IH]; intros acc; [done|].
  simpl. rewrite IH. f_equal. unfold match_face_at, match_face.
  destruct (first_match roster e) as [s|]; [|done]. by case_bool_decide.
Qed.

Lemma remaining_at_const today present (l : list student) acc :
  (foldl (mark_remaining_at (λ _, today) present) acc l).1
  = foldl (mark_remaining today present) acc.1 l.
Proof.
  revert acc. induction l as [|s l IH]; intros acc; [done|].
  simpl. rewrite IH. f_equal. unfold mark_remaining_at, mark_remaining.
  by case_bool_decide.
Qed.

(** A request whose marks all read the same day is the route as modelled
    for one day. *)
Lemma take_attendance_at_const today st frame :
  take_attendance_at (λ _, today) st frame = take_attendance today st frame.
Proof.
  destruct (decide (students st = [])) as [Hst|Hst].
  { by rewrite take_attendance_at_empty, take_attendance_empty. }
  destruct frame as [| |encs].
  - unfold take_attendance_at, take_attendance. by destruct (students st).
  - unfold take_attendance_at, take_attendance. by destruct (students st).
  - rewrite take_attendance_at_frame, take_attendance_frame by done.
    cbn zeta. rewrite remaining_at_const, faces_at_const. done.
Qed.



(** *** Invariants through the loops with the clock *)




(** *** What the marks write *)







End RunLedgerFacts.

Lemma class_of_two_reachable : @reachable line_faces class_of_two.
Proof.
  unfold class_of_two, line_handle, line_init.
  apply reachable_step, reachable_step, reachable_init.
Defined.





(** ** The stores over time *)


Section StoresOverTime.
Context `{FaceLib}.



(** X13: in every store the service can reach, the listing has one row per
    registered student, in registration order, and the ids of its rows are
    1, 2, ..., n. *)
Theorem get_students_ids (st : state) :
  reachable st →
  length (get_students st) = length (students st)
  ∧ (get_students st).*1.*1 = Z.of_nat <$> seq 1 (length (students st)).
Proof.
  intros Hr. pose proof (reachable_store_inv st Hr) as Hinv.
  unfold get_students. split; [by rewrite length_fmap|].
  apply list_eq. intros i. rewrite !list_lookup_fmap.
  destruct (students st !! i) as [s|] eqn:Hs; simpl.
  - rewrite (ids_sequential st Hinv i s Hs).
    pose proof (lookup_lt_Some _ _ _ Hs) as Hlt.
    rewrite lookup_seq_lt by done. simpl. f_equal. lia.
  - apply lookup_ge_None in Hs. by rewrite lookup_seq_ge.
Qed.
End StoresOverTime.



Lemma get_students_ids_witness :
  length (@get_students line_faces class_of_two)
    = length (students class_of_two)
  ∧ (@get_students line_faces class_of_two).*1.*1 = [1; 2].
Proof.
  exact (get_students_ids (H := line_faces) class_of_two
           class_of_two_reachable).
Defined.

(** ** /get_attendance_graph: the daily view and the totals *)

Lemma total_cons (x : nat) (l : list nat) :
  total (x :: l) = (x + total l)%nat.
Proof. done. Qed.

Lemma total_fmap_add {A} (f g : A → nat) (l : list A) :
  total ((λ x, f x + g x)%nat <$> l)
  = (total (f <$> l) + total (g <$> l))%nat.
Proof.
  induction l as [|x l IH]; [done|].
  rewrite !fmap_cons, !total_cons, IH. lia.
Qed.

Lemma total_fmap_zero {A} (f : A → nat) (l : list A) :
  (∀ x, x ∈ l → f x = 0%nat) → total (f <$> l) = 0%nat.
Proof.
  induction l as [|x l IH]; intros Hz; [done|].
  rewrite fmap_cons, total_cons, Hz by left.
  rewrite IH; [done|]. intros y Hy. apply Hz. by right.
Qed.

(** Among labels without repetition one key is counted once. *)
Lemma total_indicator (labels : list string) (x : string) (c : nat) :
  NoDup labels → x ∈ labels →
  total ((λ m, if bool_decide (x = m) then c else 0%nat) <$> labels) = c.
Proof.
  induction 1 as [|m labels Hm Hnd IH]; [by intros ?%elem_of_nil|].
  rewrite fmap_cons, total_cons. intros [->|Hin]%elem_of_cons.
  - rewrite bool_decide_eq_true_2 by done.
    rewrite total_fmap_zero; [lia|].
    intros y Hy. rewrite bool_decide_eq_false_2; [done|]. by intros <-.
  - rewrite bool_decide_eq_false_2 by (by intros ->).
    by rewrite IH.
Qed.

Lemma count_in_bucket_cons key m s l h :
  count_in_bucket key m s (l :: h)
  = ((if bool_decide (key l = m)
      then (if bool_decide (status l = s) then 1 else 0) else 0)
     + count_in_bucket key m s h)%nat.
Proof.
  change (l :: h) with ([l] ++ h).
  rewrite count_in_bucket_app, count_in_bucket_one. f_equal.
  repeat case_bool_decide; naive_solver.
Qed.

Lemma count_status_cons s l h :
  count_status s (l :: h)
  = ((if bool_decide (status l = s) then 1 else 0) + count_status s h)%nat.
Proof.
  unfold count_status. rewrite filter_cons.
  case_bool_decide; destruct (decide _); simpl; done.
Qed.

Lemma total_buckets key s (labels : list string) (h : list log_entry) :
  NoDup labels → (∀ l, l ∈ h → key l ∈ labels) →
  total ((λ m, count_in_bucket key m s h) <$> labels) = count_status s h.
Proof.
  intros Hnd. induction h as [|l h IH]; intros Hkeys.
  - by apply total_fmap_zero.
  - rewrite count_status_cons, <- IH by (intros; apply Hkeys; by right).
    rewrite <- (total_indicator labels (key l)
                  (if bool_decide (status l = s) then 1 else 0)%nat Hnd)
      by (apply Hkeys; left).
    rewrite <- total_fmap_add. f_equal. apply list_fmap_ext.
    intros i m _. apply count_in_bucket_cons.
Qed.

Lemma StronglySorted_string_lt_NoDup (l : list string) :
  StronglySorted string_lt l → NoDup l.
Proof.
  induction 1 as [|x l Hl IH Hx]; [constructor|].
  constructor; [|done]. intros Hin.
  rewrite Forall_forall in Hx. specialize (Hx x Hin).
  unfold string_lt, String.ltb in Hx.
  by rewrite string_compare_refl in Hx.
Qed.

Lemma count_status_total h :
  (count_status Present h + count_status Absent h)%nat = length h.
Proof.
  induction h as [|l h IH]; [done|].
  rewrite !count_status_cons. simpl. rewrite <- IH.
  destruct (status l); repeat case_bool_decide; done || lia.
Qed.

(** X14: any view other than "monthly" is the daily view: one bucket per
    distinct date of the history, carrying the numbers of Present and of
    Absent events of that date, labels strictly ascending. *)
Theorem daily_series (log : gmap Z (list log_entry)) (k : Z)
    (history : list log_entry) (view : string) :
  view ≠ "monthly" →
  let labels := (series date history).1.1 in
  get_attendance_graph (<[k := history]> log) (Some k) view
    = Ok (series date history)
  ∧ (∀ d, d ∈ labels ↔ ∃ l, l ∈ history ∧ date l = d)
  ∧ (series date history).1.2
      = (λ d, count_in_bucket date d Present history) <$> labels
  ∧ (series date history).2
      = (λ d, count_in_bucket date d Absent history) <$> labels
  ∧ StronglySorted string_lt labels.
Proof.
  intros Hview. split; [|apply (series_spec date)].
  unfold get_attendance_graph. simpl. rewrite lookup_insert_eq.
  by rewrite bool_decide_eq_false_2.
Qed.

(** X15: whatever the view, the three lists handed to the chart have the
    same length, the present counts add up to the number of Present events
    of the history and the absent counts to the number of Absent events:
    every event is counted in exactly one bucket. *)
Theorem graph_counts_every_event (log : gmap Z (list log_entry))
    (student_id : option Z) (view : string)
    (labels : list string) (present_counts absent_counts : list nat) :
  get_attendance_graph log student_id view
    = Ok (labels, present_counts, absent_counts) →
  ∃ k history, student_id = Some k ∧ log !! k = Some history
    ∧ length present_counts = length labels
    ∧ length absent_counts = length labels
    ∧ total present_counts = count_status Present history
    ∧ total absent_counts = count_status Absent history
    ∧ (total present_counts + total absent_counts)%nat = length history.
Proof.
  unfold get_attendance_graph.
  destruct student_id as [k|]; [|done]. simpl.
  destruct (log !! k) as [history|] eqn:Hh; [|done].
  assert (Hany : ∀ key, Ok (series key history)
                        = Ok (labels, present_counts, absent_counts) →
    length present_counts = length labels
    ∧ length absent_counts = length labels
    ∧ total present_counts = count_status Present history
    ∧ total absent_counts = count_status Absent history
    ∧ (total present_counts + total absent_counts)%nat = length history).
  { intros key Hok.
    assert (Heq : series key history = (labels, present_counts, absent_counts))
      by congruence.
    destruct (series_spec key history) as (Hin & Hp & Ha & Hsorted).
    rewrite Heq in Hin, Hp, Ha, Hsorted. simpl in Hin, Hp, Ha, Hsorted.
    apply StronglySorted_string_lt_NoDup in Hsorted.
    assert (Hkeys : ∀ l, l ∈ history → key l ∈ labels).
    { intros l Hl. apply Hin. by exists l. }
    assert (Htp : total present_counts = count_status Present history).
    { rewrite Hp. by apply total_buckets. }
    assert (Hta : total absent_counts = count_status Absent history).
    { rewrite Ha. by apply total_buckets. }
    split_and!; [by rewrite Hp, length_fmap|by rewrite Ha, length_fmap|done..|].
    rewrite Htp, Hta. apply count_status_total. }
  intros Hout. exists k, history. split; [done|]. split; [done|].
  case_bool_decide; by eapply Hany.
Qed.

Section DailyCounts.
Context `{FaceLib}.

End DailyCounts.

(** ** /send_report: totals, file name, layout *)

(** X17: the totals of a report add up: total_present plus total_absent is
    the number of events of the history, so total_present never exceeds
    it. *)
Theorem summary_adds_up (logs : list log_entry) (tp ta : nat) (pct : float) :
  summary logs = Some (tp, ta, pct) →
  (tp + ta)%nat = length logs ∧ (tp ≤ length logs)%nat.
Proof.
  rewrite summary_eq. intros [= <- <- _].
  pose proof (count_status_total logs). lia.
Qed.

Lemma line_position_step (n : nat) :
  (if bool_decide ((line_position n).2 - 20 < 50)
   then (S (line_position n).1, 800)
   else ((line_position n).1, (line_position n).2 - 20))
  = line_position (S n).
Proof.
  unfold line_position.
  destruct (decide (n < 30)%nat) as [Hn|Hn].
  - rewrite (bool_decide_eq_true_2 (n < 30)%nat) by done. cbn [fst snd].
    destruct (decide (S n < 30)%nat) as [Hn'|Hn'].
    + rewrite (bool_decide_eq_true_2 (S n < 30)%nat) by done.
      rewrite bool_decide_eq_false_2 by lia. f_equal. lia.
    + rewrite (bool_decide_eq_false_2 (S n < 30)%nat) by done.
      assert (n = 29%nat) as -> by lia. reflexivity.
  - rewrite (bool_decide_eq_false_2 (n < 30)%nat) by done.
    rewrite (bool_decide_eq_false_2 (S n < 30)%nat) by lia. cbn [fst snd].
    replace (S n - 30)%nat with (S (n - 30)) by lia.
    set (m := (n - 30)%nat).
    pose proof (Nat.div_mod_eq m 38) as Hm.
    pose proof (Nat.mod_upper_bound m 38 ltac:(done)) as Hr.
    destruct (decide (m mod 38 = 37)%nat) as [Hlast|Hmid].
    + rewrite bool_decide_eq_true_2 by lia.
      assert (Hq : (S m / 38 = S (m / 38))%nat).
      { symmetry. apply (Nat.div_unique (S m) 38 (S (m / 38)) 0); lia. }
      assert (Hr' : (S m mod 38 = 0)%nat).
      { symmetry. apply (Nat.mod_unique (S m) 38 (S (m / 38)) 0); lia. }
      rewrite Hq, Hr'. reflexivity.
    + rewrite bool_decide_eq_false_2 by lia.
      assert (Hq : (S m / 38 = m / 38)%nat).
      { symmetry. apply (Nat.div_unique (S m) 38 (m / 38) (S (m mod 38))); lia. }
      assert (Hr' : (S m mod 38 = S (m mod 38))%nat).
      { symmetry. apply (Nat.mod_unique (S m) 38 (m / 38) (S (m mod 38))); lia. }
      rewrite Hq, Hr'. f_equal. lia.
Qed.

Lemma line_position_bounds (i : nat) : 60 ≤ (line_position i).2 ≤ 800.
Proof.
  unfold line_position. case_bool_decide; cbn [fst snd]; [lia|].
  pose proof (Nat.mod_upper_bound (i - 30) 38 ltac:(done)). lia.
Qed.

Lemma line_position_inj (i j : nat) :
  line_position i = line_position j → i = j.
Proof.
  unfold line_position.
  pose proof (Nat.div_mod_eq (i - 30) 38).
  pose proof (Nat.div_mod_eq (j - 30) 38).
  pose proof (Nat.mod_upper_bound (i - 30) 38 ltac:(done)).
  pose proof (Nat.mod_upper_bound (j - 30) 38 ltac:(done)).
  repeat case_bool_decide; intros Heq;
    pose proof (f_equal fst Heq) as Hpg; pose proof (f_equal snd Heq) as Hy;
    cbn [fst snd] in Hpg, Hy; lia.
Qed.

Lemma draw_lines_state (logs : list log_entry) :
  foldl draw_line ([], (0%nat, 640)) logs
  = (imap (λ i l, (line_position i, line_text l)) logs,
     line_position (length logs)).
Proof.
  induction logs as [|l logs IH] using rev_ind; [done|].
  rewrite foldl_snoc, IH. unfold draw_line.
  destruct (line_position (length logs)) as [pg y] eqn:Hpos.
  rewrite imap_app, length_app. simpl.
  rewrite Nat.add_0_r, Hpos. f_equal.
  replace (length logs + 1)%nat with (S (length logs)) by lia.
  rewrite <- line_position_step, Hpos. done.
Qed.

(** X18: the detailed list is laid out without loss or overlap: the entry
    with index [i] is drawn with its own text at [line_position i] (thirty
    lines on the first page from height 640, thirty-eight on every further
    page from height 800, 20 apart), every height lies between 60 and 800,
    and two different entries never share page and height. *)
Theorem detailed_attendance_layout (logs : list log_entry) :
  detailed_attendance logs
    = imap (λ i l, (line_position i, line_text l)) logs
  ∧ length (detailed_attendance logs) = length logs
  ∧ (∀ i, 60 ≤ (line_position i).2 ≤ 800)
  ∧ (∀ i j, line_position i = line_position j → i = j).
Proof.
  unfold detailed_attendance. rewrite draw_lines_state. simpl.
  split_and!; [done|by rewrite length_imap|apply line_position_bounds|
               apply line_position_inj].
Qed.

Lemma py_replace_char_spec (a b : ascii) (s : string) :
  String.length (py_replace_char a b s) = String.length s
  ∧ (a ≠ b → a ∉ String.list_ascii_of_string (py_replace_char a b s)).
Proof.
  induction s as [|c s [IH1 IH2]]; simpl.
  - split; [done|]. intros _. apply not_elem_of_nil.
  - split; [by rewrite IH1|]. intros Hab.
    apply not_elem_of_cons. split; [|by apply IH2].
    case_bool_decide; congruence.
Qed.

Lemma list_ascii_of_string_app (s1 s2 : string) :
  String.list_ascii_of_string (s1 +:+ s2)
  = String.list_ascii_of_string s1 ++ String.list_ascii_of_string s2.
Proof. induction s1 as [|c s1 IH]; simpl; [done|]. by rewrite IH. Qed.

Lemma string_length_app (s1 s2 : string) :
  String.length (s1 +:+ s2) = (String.length s1 + String.length s2)%nat.
Proof. induction s1 as [|c s1 IH]; simpl; [done|]. by rewrite IH. Qed.

(** X19: the name of the report file never contains a space, whatever the
    student's name, and is 22 characters longer than that name. *)
Theorem pdf_filename_no_space (nm : string) :
  (" "%char ∉ String.list_ascii_of_string (pdf_filename nm))
  ∧ String.length (pdf_filename nm) = (String.length nm + 22)%nat.
Proof.
  unfold pdf_filename.
  destruct (py_replace_char_spec " "%char "_"%char nm) as [Hlen Hno].
  split.
  - rewrite !list_ascii_of_string_app, !elem_of_app.
    intros [Hin|[Hin|Hin]].
    + vm_compute in Hin. set_solver.
    + by apply Hno.
    + vm_compute in Hin. set_solver.
  - rewrite !string_length_app, Hlen. simpl. lia.
Qed.

Lemma daily_series_witness :
  "daily" ≠ "monthly"
  ∧ get_attendance_graph (<[1 := winter_history]> ∅) (Some 1) "daily"
    = Ok (series date winter_history).
Proof.
  assert (Hview : "daily" ≠ "monthly") by discriminate.
  split; [exact Hview|].
  exact (proj1 (daily_series ∅ 1 winter_history "daily" Hview)).
Defined.

Lemma graph_counts_every_event_witness :
  get_attendance_graph (<[1 := winter_history]> ∅) (Some 1) "monthly"
    = Ok (["2024-01"; "2024-02"], [1%nat; 1%nat], [1%nat; 0%nat])
  ∧ ∃ k history, Some 1 = Some k
      ∧ (<[1 := winter_history]> ∅ : gmap Z (list log_entry)) !! k
        = Some history
      ∧ length [1%nat; 1%nat] = length ["2024-01"; "2024-02"]
      ∧ length [1%nat; 0%nat] = length ["2024-01"; "2024-02"]
      ∧ total [1%nat; 1%nat] = count_status Present history
      ∧ total [1%nat; 0%nat] = count_status Absent history
      ∧ (total [1%nat; 1%nat] + total [1%nat; 0%nat])%nat = length history.
Proof.
  split; [reflexivity|].
  exact (graph_counts_every_event (<[1 := winter_history]> ∅) (Some 1)
           "monthly" ["2024-01"; "2024-02"] [1%nat; 1%nat] [1%nat; 0%nat]
           eq_refl).
Defined.


Lemma summary_adds_up_witness :
  summary [LogEntry Present monday] = Some (1%nat, 0%nat, 100%float)
  ∧ (1 + 0)%nat = length [LogEntry Present monday].
Proof.
  split; [reflexivity|].
  exact (proj1 (summary_adds_up [LogEntry Present monday] 1 0 100%float
                  eq_refl)).
Defined.

(** ** Answers and the ledger *)

Section AnswerAndLedger.
Context `{FaceLib}.

Lemma run_lists_ignore_log today1 today2 roster r1 r2 encs :
  present_students r1 = present_students r2 →
  absent_students r1 = absent_students r2 →
  present_students (foldl (match_face today1 roster) r1 encs)
    = present_students (foldl (match_face today2 roster) r2 encs)
  ∧ absent_students (foldl (match_face today1 roster) r1 encs)
    = absent_students (foldl (match_face today2 roster) r2 encs).
Proof.
  revert r1 r2. induction encs as [|e encs IH]; intros r1 r2 Hp Ha; [done|].
  simpl. apply IH; unfold match_face;
    destruct (first_match roster e) as [s|]; try done;
    rewrite Hp, Ha; by case_bool_decide.
Qed.

(** X20: the answer of the route depends on the roster and the frame only,
    not on the ledger nor on the day: a student already marked today is
    returned as present again when seen again. *)
Theorem take_attendance_answer_ignores_ledger (today1 today2 : string)
    (st1 st2 : state) (frame : frame_upload) :
  students st1 = students st2 →
  (take_attendance today1 st1 frame).1 = (take_attendance today2 st2 frame).1.
Proof.
  intros Hroster.
  destruct (decide (students st1 = [])) as [Hst|Hst].
  { rewrite !take_attendance_empty; [done|congruence|done]. }
  unfold take_attendance. rewrite <- Hroster.
  destruct (students st1) as [|s0 ss] eqn:E; [done|].
  destruct frame as [| |encs]; [done..|]. simpl. rewrite <- E.
  destruct (run_lists_ignore_log today1 today2 (students st1)
              (Run [] (name <$> students st1) (attendance_log st1))
              (Run [] (name <$> students st1) (attendance_log st2))
              encs eq_refl eq_refl) as [Hp Ha].
  unfold attendance_run. by rewrite Hp, Ha.
Qed.

End AnswerAndLedger.

Lemma take_attendance_answer_ignores_ledger_witness :
  students class_of_two = students class_after_monday
  ∧ (@take_attendance line_faces monday class_of_two
       (line_frame [(1 # 10)%Q])).1
    = (@take_attendance line_faces "2024-01-02" class_after_monday
         (line_frame [(1 # 10)%Q])).1.
Proof.
  split; [reflexivity|].
  exact (take_attendance_answer_ignores_ledger (H := line_faces) monday
           "2024-01-02" class_of_two class_after_monday
           (line_frame [(1 # 10)%Q]) eq_refl).
Defined.

